(** * PKIsensee String utilities: CharUtil.h and StrUtil.h

    A shallow embedding of the narrow-character instantiations
    [CharUtil = CharUtilT<char>], [StrUtil = StrUtilT<char>] and
    [StrList = StrListT<char>], followed by the properties of the
    library's specification that are settled against it.

    Conventions of the embedding:
    - a code unit [C] is an 8-bit [ascii]; its numeric value as a [char]
      depends on the signedness of plain [char], which is an explicit
      argument wherever the source compares a code unit with a number;
    - [std::basic_string<char>] is a [list ascii]; the in-place members
      ([assign], [replace], [resize], [erase], ...) are functions from
      the old contents to the new contents;
    - [size_t] values are integers in [Z], with the wrap-around of
      unsigned 64-bit arithmetic written out by [size_t]; the value
      [npos] returned by the search members is [None];
    - a [std::out_of_range] thrown by a string member, a failed
      [assert], a read past the end of a range, a signed arithmetic
      overflow and a loop that exhausts its iteration budget are the
      constructors of [fault], threaded through [outcome]. *)

From Stdlib Require Import ZArith NArith Ascii String DecimalString Lia.
From stdpp Require Import base list strings.

Abbreviation C := ascii (only parsing).
Abbreviation strT := (list ascii) (only parsing).

(** Narrow string literals. *)
Definition lit (s : string) : strT := list_ascii_of_string s.

(** The double-quote character, code 34. *)
Definition dquote : C := Eval vm_compute in ascii_of_N 34.

(** ** Faults and outcomes *)

Inductive fault : Type :=
  | out_of_range       (* std::out_of_range thrown by a string member *)
  | assertion_failed   (* assert( ... ) evaluated to false *)
  | past_the_end       (* an array or iterator read outside its range *)
  | signed_overflow    (* signed integer overflow: undefined behaviour *)
  | fuel_exhausted.    (* a while loop ran past its iteration budget *)

Inductive outcome (A : Type) : Type :=
  | Ok (a : A)
  | Fault (f : fault).
Arguments Ok {A} a.
Arguments Fault {A} f.

#[global] Instance outcome_ret : MRet outcome := fun A a => Ok a.
#[global] Instance outcome_bind : MBind outcome := fun A B k m =>
  match m with
  | Ok a => k a
  | Fault f => Fault f
  end.

Definition assert (b : bool) : outcome unit :=
  if b then Ok tt else Fault assertion_failed.

(** ** The classic locale

    [std::locale::classic()] is the "C" locale: classification is a
    fixed table over the byte value, and only the ASCII range carries
    any class. *)

Module ClassicLocale.

Definition code (c : C) : N := N_of_ascii c.

Definition between (lo hi : N) (c : C) : bool :=
  (lo <=? code c)%N && (code c <=? hi)%N.

Definition isupper (c : C) : bool := between 65 90 c.
Definition islower (c : C) : bool := between 97 122 c.
Definition isdigit (c : C) : bool := between 48 57 c.
Definition isalpha (c : C) : bool := isupper c || islower c.
Definition isalnum (c : C) : bool := isalpha c || isdigit c.
Definition isprint (c : C) : bool := between 32 126 c.
Definition isspace (c : C) : bool := between 9 13 c || (code c =? 32)%N.
Definition iscntrl (c : C) : bool := between 0 31 c || (code c =? 127)%N.

Definition toupper (c : C) : C :=
  if islower c then ascii_of_N (code c - 32) else c.
Definition tolower (c : C) : C :=
  if isupper c then ascii_of_N (code c + 32) else c.

End ClassicLocale.

(** ** CharUtil.h *)

Module CharUtil.

Record FileCharMap : Type := {
  special : ascii;      (* Special file name char *)
  replacement : ascii   (* Replacement char *)
}.

(** Invalid file name characters and reasonable replacement values *)
Definition kBadFileChars : list FileCharMap :=
  [ {| special := ":"; replacement := "-" |};
    {| special := dquote; replacement := "'" |};
    {| special := "<"; replacement := "(" |};
    {| special := ">"; replacement := ")" |};
    {| special := "|"; replacement := "." |};
    {| special := "/"; replacement := "\" |} ]%char.

(** Wildcards and replacements *)
Definition kWildcardChars : list FileCharMap :=
  [ {| special := "*"; replacement := "+" |};
    {| special := "?"; replacement := " " |} ]%char.

Inductive AllowWildcards : Type :=
  | AllowWildcards_No
  | AllowWildcards_Yes.

Inductive ConvertWildcards : Type :=
  | ConvertWildcards_No
  | ConvertWildcards_Yes.

(** The numeric value of a code unit of type [char]: with a signed
    plain [char] the bytes 128..255 are the values -128..-1. *)
Definition char_value (char_is_signed : bool) (c : C) : Z :=
  let n := Z.of_N (N_of_ascii c) in
  if char_is_signed && (128 <=? n)%Z then (n - 256)%Z else n.

(** The conversion [C( n )] of an integer constant to [char]. *)
Definition C_of_Z (n : Z) : C := ascii_of_N (Z.to_N (n mod 256)).

Definition IsUpper (c : C) : bool := ClassicLocale.isupper c.
Definition IsLower (c : C) : bool := ClassicLocale.islower c.
Definition ToUpper (c : C) : C := ClassicLocale.toupper c.
Definition ToLower (c : C) : C := ClassicLocale.tolower c.

Definition ForwardSlashToBackslash (c : C) : C :=
  if Ascii.eqb c "/" then "\"%char else c.

Definition IsDigit (c : C) : bool := ClassicLocale.isdigit c.

Definition IsNumeric (c : C) : bool := IsDigit c || Ascii.eqb c ".".

Definition IsAlpha (c : C) : bool := ClassicLocale.isalpha c.
Definition IsAlphaNum (c : C) : bool := ClassicLocale.isalnum c.
Definition IsPrintable (c : C) : bool := ClassicLocale.isprint c.
Definition IsWhitespace (c : C) : bool := ClassicLocale.isspace c.
Definition IsControlChar (c : C) : bool := ClassicLocale.iscntrl c.

Definition IsExtendedAscii (char_is_signed : bool) (c : C) : bool :=
  (char_value char_is_signed c <? 0)%Z
  || (char_value char_is_signed c >? char_value char_is_signed (C_of_Z 127))%Z.

Definition IsWildcardFileChar (c : C) : bool :=
  existsb (fun i => Ascii.eqb c (special i)) kWildcardChars.

Definition IsGoodFileCharEx (c : C) (allowWildcards : AllowWildcards) : bool :=
  if IsControlChar c then false
  else if existsb (fun i => Ascii.eqb c (special i)) kBadFileChars then false
  else if match allowWildcards with
          | AllowWildcards_No => IsWildcardFileChar c
          | AllowWildcards_Yes => false
          end then false
  else true.

Definition IsGoodFileCharWildcardsOK (c : C) : bool :=
  IsGoodFileCharEx c AllowWildcards_Yes.

Definition IsGoodFileChar (c : C) : bool :=
  IsGoodFileCharEx c AllowWildcards_No.

Definition ToGoodFileCharEx (c : C) (convertWildcards : ConvertWildcards) : C :=
  (* Convert any control characters *)
  if IsControlChar c then "!"%char
  else
    (* Convert any invalid chars *)
    match List.find (fun i => Ascii.eqb c (special i)) kBadFileChars with
    | Some badChar => replacement badChar
    | None =>
        (* If converting wildcards, check them too *)
        match convertWildcards with
        | ConvertWildcards_Yes =>
            match List.find (fun i => Ascii.eqb c (special i)) kWildcardChars with
            | Some wildcard => replacement wildcard
            | None => c
            end
        | ConvertWildcards_No => c
        end
    end.

Definition ToGoodFileCharConvertWildcards (c : C) : C :=
  ToGoodFileCharEx c ConvertWildcards_Yes.

Definition ToGoodFileChar (c : C) : C :=
  ToGoodFileCharEx c ConvertWildcards_No.

End CharUtil.

(** ** std::basic_string<char>: the members the library calls *)

Module basic_string.

(** Arithmetic on [size_t] is modulo 2^64. *)
Definition size_t (z : Z) : Z := (z mod 2 ^ 64)%Z.

Definition size (str : strT) : Z := Z.of_nat (length str).

(** The numeric value of a search result; [npos] is [size_t( -1 )]. *)
Definition npos : Z := (2 ^ 64 - 1)%Z.
Definition index (pos : option Z) : Z := default npos pos.

Definition empty (str : strT) : bool :=
  match str with [] => true | _ :: _ => false end.

Definition clear (str : strT) : strT := [].

(** [str.find( c, pos )]: the first index [>= pos] holding [c]. *)
Fixpoint find_from (c : C) (s : strT) (i : Z) : option Z :=
  match s with
  | [] => None
  | x :: s' => if Ascii.eqb x c then Some i else find_from c s' (i + 1)%Z
  end.

Definition find (str : strT) (c : C) (pos : Z) : option Z :=
  find_from c (drop (Z.to_nat pos) str) pos.

Definition in_charset (charset : strT) (c : C) : bool :=
  existsb (Ascii.eqb c) charset.

(** [str.find_first_not_of( charset )] *)
Fixpoint first_not_of_from (charset s : strT) (i : Z) : option Z :=
  match s with
  | [] => None
  | x :: s' =>
      if in_charset charset x then first_not_of_from charset s' (i + 1)%Z
      else Some i
  end.

Definition find_first_not_of (str charset : strT) : option Z :=
  first_not_of_from charset str 0.

(** [str.find_last_not_of( charset )]: scans [str[n-1]] down to
    [str[0]]. *)
Fixpoint last_not_of_below (charset str : strT) (n : nat) : option Z :=
  match n with
  | 0 => None
  | S i =>
      match str !! i with
      | Some x =>
          if in_charset charset x then last_not_of_below charset str i
          else Some (Z.of_nat i)
      | None => last_not_of_below charset str i
      end
  end.

Definition find_last_not_of (str charset : strT) : option Z :=
  last_not_of_below charset str (length str).

(** [str.assign( str, pos, count )]: the substring
    [pos, min(pos + count, size)); throws when [pos > size]. *)
Definition assign (str : strT) (pos count : Z) : outcome strT :=
  if (pos <=? size str)%Z then
    let rlen := Z.min count (size str - pos) in
    Ok (take (Z.to_nat rlen) (drop (Z.to_nat pos) str))
  else Fault out_of_range.

(** [str.replace( pos, count, s )]: throws when [pos > size]. *)
Definition replace (str : strT) (pos count : Z) (s : strT) : outcome strT :=
  if (pos <=? size str)%Z then
    let rlen := Z.min count (size str - pos) in
    Ok (take (Z.to_nat pos) str ++ s ++ drop (Z.to_nat (pos + rlen)) str)
  else Fault out_of_range.

(** [str.resize( n )]: truncates, or pads with [C()]. *)
Definition resize (str : strT) (n : Z) : strT :=
  take (Z.to_nat n) str ++ replicate (Z.to_nat n - length str) zero.

(** [str.erase( first, last )] on iterator positions. *)
Definition erase (str : strT) (first last : nat) : strT :=
  take first str ++ drop last str.

End basic_string.

(** ** std::ranges algorithms *)

Module ranges.

Definition all_of {A} (r : list A) (pred : A -> bool) : bool := forallb pred r.
Definition any_of {A} (r : list A) (pred : A -> bool) : bool := existsb pred r.

(** [transform( str, std::begin( str ), f )]: the output range is
    the input range, so element [i] is overwritten after it is read. *)
Fixpoint transform_loop (f : C -> C) (str : strT) (i n : nat) : strT :=
  match n with
  | 0 => str
  | S n' =>
      match str !! i with
      | Some c => transform_loop f (<[i := f c]> str) (S i) n'
      | None => str
      end
  end.

Definition transform (str : strT) (f : C -> C) : strT :=
  transform_loop f str 0 (length str).

(** [remove_if( str, pred )]: the kept elements are moved to the
    front in order; the result is the updated buffer and the subrange
    [removedBeg, removedEnd) of leftover positions. *)
Fixpoint remove_if_loop (pred : C -> bool) (str : strT) (first i n : nat)
  : strT * nat :=
  match n with
  | 0 => (str, first)
  | S n' =>
      match str !! i with
      | Some c =>
          if pred c then remove_if_loop pred str first (S i) n'
          else remove_if_loop pred (<[first := c]> str) (S first) (S i) n'
      | None => (str, first)
      end
  end.

Definition remove_if (str : strT) (pred : C -> bool) : strT * (nat * nat) :=
  let '(str', removedBeg) := remove_if_loop pred str 0 0 (length str) in
  (str', (removedBeg, length str)).

End ranges.

(** ** std::format and the chrono conversion specifiers

    The formatting facility is the C++ standard library's. For the
    conversion specifiers that refer to a time of day ([%H], [%M] and
    [%S]) a duration is read as the time of day elapsed since midnight
    ([time.format]): [%H] writes the hour of the 24-hour clock, so whole
    days do not show in it, and [%M] and [%S] write the minute and the
    second. Each of the three is written with at least two digits. A
    negative duration is written as a minus sign followed by the fields
    of its magnitude; the least 64-bit value has no magnitude, and
    negating it is a signed overflow. *)

Module chrono.

(** [{}] applied to an unsigned integer: plain decimal. *)
Definition decimal (n : Z) : strT :=
  lit (NilZero.string_of_uint (N.to_uint (Z.to_N n))).

Definition two_digits (n : Z) : strT :=
  if (n <? 10)%Z then "0"%char :: decimal n else decimal n.

(** The representation of [std::chrono::seconds] is a signed 64-bit
    integer; an [uint64_t] converts to it modulo 2^64. *)
Definition seconds (n : Z) : Z :=
  let r := (n mod 2 ^ 64)%Z in
  if (r <? 2 ^ 63)%Z then r else (r - 2 ^ 64)%Z.

(** [std::chrono::abs( d )] on a 64-bit count: [-d] overflows for the
    least value. *)
Definition abs (d : Z) : outcome Z :=
  if (d =? - 2 ^ 63)%Z then Fault signed_overflow else Ok (Z.abs d).

Record time_of_day : Type := {
  hours : Z;
  minutes : Z;
  secs : Z
}.

(** The time of day that [a] seconds after midnight fall on. *)
Definition time_of_day_of (a : Z) : time_of_day :=
  {| hours := ((a / 3600) mod 24)%Z;
     minutes := ((a mod 3600) / 60)%Z;
     secs := (a mod 60)%Z |}.

Definition conversion (spec : C) (t : time_of_day) : strT :=
  if Ascii.eqb spec "H" then two_digits (hours t)
  else if Ascii.eqb spec "M" then two_digits (minutes t)
  else if Ascii.eqb spec "S" then two_digits (secs t)
  else [].

(** The chrono-specs of a replacement field: [%X] is a conversion,
    any other character is copied. *)
Fixpoint chrono_specs (fmt : strT) (t : time_of_day) : strT :=
  match fmt with
  | [] => []
  | c :: rest =>
      if Ascii.eqb c "%" then
        match rest with
        | spec :: rest' => conversion spec t ++ chrono_specs rest' t
        | [] => []
        end
      else c :: chrono_specs rest t
  end.

(** [std::vformat( fmt, std::make_format_args( sec ) )] for a format
    string that is one replacement field ["{:" chrono-specs "}"]. *)
Definition vformat (fmt : strT) (sec : Z) : outcome strT :=
  magnitude ← abs sec;
  let specs := take (length fmt - 3) (drop 2 fmt) in
  Ok ((if (sec <? 0)%Z then ["-"%char] else [])
      ++ chrono_specs specs (time_of_day_of magnitude)).

End chrono.

(** ** StrUtil.h *)

Record XmlMarkup : Type := {
  symbol : ascii;           (* e.g. '&' *)
  xmlCode : strT;           (* e.g. "&amp;" *)
  xmlWideCode : list N      (* e.g. L"&amp;" *)
}.

Definition wide (s : string) : list N := map N_of_ascii (lit s).

Definition kXmlReplace : list XmlMarkup :=
  [ {| symbol := "&";    xmlCode := lit "&amp;";  xmlWideCode := wide "&amp;" |};
    {| symbol := "<";    xmlCode := lit "&lt;";   xmlWideCode := wide "&lt;" |};
    {| symbol := ">";    xmlCode := lit "&gt;";   xmlWideCode := wide "&gt;" |};
    {| symbol := dquote; xmlCode := lit "&quot;"; xmlWideCode := wide "&quot;" |};
    {| symbol := "'";    xmlCode := lit "&apos;"; xmlWideCode := wide "&apos;" |} ]%char.

Module StrUtil.

Import basic_string.

Inductive AllowWildcards : Type :=
  | AllowWildcards_No
  | AllowWildcards_Yes.

Inductive ConvertWildcards : Type :=
  | ConvertWildcards_No
  | ConvertWildcards_Yes
  | ConvertWildcards_Remove.

(** The [while( pos != strT::npos )] loop of [ToXmlSafe]; [fuel]
    bounds the number of iterations. *)
Fixpoint ToXmlSafe_while (fuel : nat) (sym : C) (code : strT)
    (str : strT) (pos : option Z) : outcome strT :=
  match pos with
  | None => Ok str
  | Some p =>
      match fuel with
      | 0 => Fault fuel_exhausted
      | S fuel' =>
          str' ← replace str p 1 code;
          ToXmlSafe_while fuel' sym code str' (find str' sym (size_t (p + 1)))
      end
  end.

(** The [for( const auto& specialXml : kXmlReplace )] loop, with the
    running [index] into [kXmlReplace]. The body of the inner loop
    runs once per occurrence of the symbol, so the size of the string
    on entry is its iteration budget. *)
Fixpoint ToXmlSafe_for (entries : list XmlMarkup) (index : nat)
    (str : strT) : outcome strT :=
  match entries with
  | [] => Ok str
  | specialXml :: entries' =>
      match kXmlReplace !! index with
      | Some entry =>
          (* Replace each special character with the proper code *)
          str' ← ToXmlSafe_while (length str) (symbol specialXml)
                   (xmlCode entry) str (find str (symbol specialXml) 0);
          ToXmlSafe_for entries' (S index) str'
      | None => Fault past_the_end
      end
  end.

Definition ToXmlSafe (str : strT) : outcome strT :=
  ToXmlSafe_for kXmlReplace 0 str.

Definition GetXmlSafe (str : strT) : outcome strT :=
  ToXmlSafe str.

(** Trim leading characters *)
Definition ToTrimmedLeading (str trimCharset : strT) : outcome strT :=
  (* Find the first character that's not in the character set. If all
     characters are in the set, clear the string and bail out. *)
  match find_first_not_of str trimCharset with
  | None => Ok (clear str)
  | Some firstNot =>
      (* The resulting string is trimmed of leading characters in the set *)
      assign str firstNot (size_t (size str - firstNot + 1))
  end.

Definition GetTrimmedLeading (str trimCharset : strT) : outcome strT :=
  ToTrimmedLeading str trimCharset.

(** Trim trailing characters *)
Definition ToTrimmedTrailing (str trimCharset : strT) : strT :=
  (* Find the last character that's not in the character set *)
  match find_last_not_of str trimCharset with
  | None => resize str 0
  | Some lastNot => resize str (size_t (lastNot + 1))
  end.

Definition GetTrimmedTrailing (str trimCharset : strT) : strT :=
  ToTrimmedTrailing str trimCharset.

(** Trim leading and trailing characters *)
Definition ToTrimmed (str trimCharset : strT) : outcome strT :=
  match find_first_not_of str trimCharset with
  | None => Ok (clear str)
  | Some firstNot =>
      (* Find the last character that's not in the character set *)
      let lastNot := find_last_not_of str trimCharset in
      _ ← assert (bool_decide (lastNot ≠ None));
      (* The resulting string is trimmed of leading and trailing
         characters in the set *)
      assign str firstNot (size_t (index lastNot - firstNot + 1))
  end.

Definition GetTrimmed (str trimCharset : strT) : outcome strT :=
  ToTrimmed str trimCharset.

Definition IsDigit (str : strT) : bool :=
  negb (empty str) && ranges.all_of str CharUtil.IsDigit.

Definition IsNumeric (str : strT) : bool :=
  match str with
  | [] => false
  | c0 :: substr =>
      (* allow leading minus sign *)
      if Ascii.eqb c0 "-" then ranges.all_of substr CharUtil.IsNumeric
      else ranges.all_of str CharUtil.IsNumeric
  end.

Definition IsAlphaNum (str : strT) : bool :=
  negb (empty str) && ranges.all_of str CharUtil.IsAlphaNum.

Definition IsPrintable (str : strT) : bool :=
  negb (empty str) && ranges.all_of str CharUtil.IsPrintable.

Definition IsExtendedAscii (char_is_signed : bool) (str : strT) : bool :=
  negb (empty str)
  && ranges.all_of str (CharUtil.IsExtendedAscii char_is_signed).

Definition IsGoodFileName (str : strT) (allowWildcards : AllowWildcards) : bool :=
  match allowWildcards with
  | AllowWildcards_No => ranges.all_of str CharUtil.IsGoodFileChar
  | AllowWildcards_Yes => ranges.all_of str CharUtil.IsGoodFileCharWildcardsOK
  end.

Definition ContainsWildcard (str : strT) : bool :=
  ranges.any_of str CharUtil.IsWildcardFileChar.

Definition ToGoodFileName (str : strT) (convertWildcards : ConvertWildcards) : strT :=
  match convertWildcards with
  | ConvertWildcards_No =>
      ranges.transform str CharUtil.ToGoodFileChar
  | ConvertWildcards_Yes =>
      ranges.transform str CharUtil.ToGoodFileCharConvertWildcards
  | ConvertWildcards_Remove =>
      let str1 := ranges.transform str CharUtil.ToGoodFileChar in
      let '(str2, (removedBeg, removedEnd)) :=
        ranges.remove_if str1 CharUtil.IsWildcardFileChar in
      erase str2 removedBeg removedEnd
  end.

Definition GetGoodFileName (str : strT) (convertWildcards : ConvertWildcards) : strT :=
  ToGoodFileName str convertWildcards.

Definition ToUpper (str : strT) : strT := ranges.transform str CharUtil.ToUpper.
Definition ToLower (str : strT) : strT := ranges.transform str CharUtil.ToLower.
Definition GetUpper (str : strT) : strT := ToUpper str.
Definition GetLower (str : strT) : strT := ToLower str.

(** Arithmetic on [uint64_t] is modulo 2^64. *)
Definition uint64_t (z : Z) : Z := (z mod 2 ^ 64)%Z.

(** Format as DDd:HHh:MMm:SSs *)
Definition GetDurationStr (totalSeconds minDays : Z) : outcome strT :=
  let kSecondsPerHour := uint64_t (60 * 60) in
  let kHoursPerDay := 24%Z in
  let kSecondsPerDay := uint64_t (kSecondsPerHour * kHoursPerDay) in
  let totalHours := (totalSeconds / kSecondsPerHour)%Z in
  let totalDays := (totalHours / kHoursPerDay)%Z in
  let kHhMmSs := lit "{:%Hh:%Mm:%Ss}" in
  let kMmSs := lit "{:%Mm:%Ss}" in
  (* Only include days if there are at least minDays (e.g. 3) *)
  if (minDays <=? totalDays)%Z then
    let duration := chrono.decimal totalDays ++ lit "d:" in
    let totalSeconds := uint64_t (totalSeconds - uint64_t (totalDays * kSecondsPerDay)) in
    let sec := chrono.seconds totalSeconds in
    formatted ← chrono.vformat kHhMmSs sec;
    Ok (duration ++ formatted)
  else
    (* Don't include hours unless there is at least one *)
    let timeFormat := if (totalHours =? 0)%Z then kMmSs else kHhMmSs in
    let sec := chrono.seconds totalSeconds in
    chrono.vformat timeFormat sec.

End StrUtil.

(** ** StrListT: vector of std::string *)

Module StrList.

Record StrListT : Type := { list_ : list strT }.

Definition size (l : StrListT) : nat := length (list_ l).
Definition empty (l : StrListT) : bool :=
  match list_ l with [] => true | _ :: _ => false end.
Definition push_back (l : StrListT) (str : strT) : StrListT :=
  {| list_ := list_ l ++ [str] |}.
Definition clear (l : StrListT) : StrListT := {| list_ := [] |}.
Definition insert (l : StrListT) (where_ : nat) (range : list strT) : StrListT :=
  {| list_ := take where_ (list_ l) ++ range ++ drop where_ (list_ l) |}.
Definition find (l : StrListT) (str : strT) : bool :=
  existsb (fun s => bool_decide (s = str)) (list_ l).
Definition ContainsEmptyStrings (l : StrListT) : bool :=
  ranges.any_of (list_ l) basic_string.empty.
Definition GetCharCount (l : StrListT) : nat :=
  fold_left (fun count rhs => count + length rhs) (list_ l) 0.

(** The loop of [operator==]: [i] and [j] are the iterators into
    [lhs] and [rhs], as the elements that remain ahead of them. *)
Fixpoint equal_loop (i j : list strT) : outcome bool :=
  match i with
  | [] => Ok true
  | x :: i' =>
      match j with
      | y :: j' => if bool_decide (x ≠ y) then Ok false else equal_loop i' j'
      | [] => Fault past_the_end
      end
  end.

Definition equal (lhs rhs : StrListT) : outcome bool :=
  if bool_decide (size lhs ≠ size rhs) then Ok false
  else equal_loop (list_ lhs) (list_ rhs).

End StrList.

(** ** StringUtil: conversions between the two code-unit widths

    A [wchar_t] code unit is modelled by its bit pattern, 16 or 32 bits
    wide depending on the platform. Converting a [char] to [wchar_t]
    keeps its numeric value (so a negative [char] is sign-extended)
    reduced modulo the width; converting a [wchar_t] to [char] keeps
    the low 8 bits. *)

Module StringUtil.

Inductive wchar_width : Type :=
  | wchar16
  | wchar32.

Definition wchar_bits (w : wchar_width) : Z :=
  match w with
  | wchar16 => 16%Z
  | wchar32 => 32%Z
  end.

Definition wchar_of_char (char_is_signed : bool) (w : wchar_width) (c : C) : N :=
  Z.to_N (CharUtil.char_value char_is_signed c mod 2 ^ wchar_bits w).

Definition char_of_wchar (u : N) : C := ascii_of_N (u mod 256).

(** [TransformTo<T>( str )] builds [T] from the range
    [std::begin( str ), std::end( str )], converting element by element. *)
Definition TransformTo {F T : Type} (convert : F -> T) (str : list F) : list T :=
  map convert str.

Definition GetUtf8 (wstr : list N) : strT :=
  TransformTo char_of_wchar wstr.

Definition GetUtf16 (char_is_signed : bool) (w : wchar_width) (str : strT) : list N :=
  TransformTo (wchar_of_char char_is_signed w) str.

End StringUtil.

(** * Specification-level readings

    Definitions that follow the wording of the specification; the
    properties below compare the embedding of the source with them. *)

(** [remove_if] keeps the characters that fail the predicate. *)
Definition keep (pred : C -> bool) (c : C) : bool := negb (pred c).

(** A string whose first and last characters are outside the trim set. *)
Definition tight (trimCharset r : strT) : Prop :=
  exists x y : C,
    r !! 0 = Some x /\ basic_string.in_charset trimCharset x = false
    /\ r !! (length r - 1) = Some y
    /\ basic_string.in_charset trimCharset y = false.

(** One pass of [ToXmlSafe] read as a substitution on characters. *)
Definition subst1 (sym : C) (code : strT) (c : C) : strT :=
  if Ascii.eqb c sym then code else [c].

Definition differs (sym : C) (x : C) : bool := negb (Ascii.eqb x sym).

Definition occurrences (sym : C) (s : strT) : nat :=
  length (List.filter (fun x => Ascii.eqb x sym) s).

Definition escape_pass (s : strT) (e : XmlMarkup) : strT :=
  flat_map (subst1 (symbol e) (xmlCode e)) s.

(** The escape text starts with one character and never contains the
    symbol after it. *)
Definition well_formed_markup (e : XmlMarkup) : Prop :=
  exists (c0 : C) (ctail : strT),
    xmlCode e = c0 :: ctail /\ forallb (differs (symbol e)) ctail = true.

(** The replacement the specification assigns to each character:
    every reserved markup character becomes its escape sequence. *)
Definition XmlEscapeChar (c : C) : strT :=
  if Ascii.eqb c "&" then lit "&amp;"
  else if Ascii.eqb c "<" then lit "&lt;"
  else if Ascii.eqb c ">" then lit "&gt;"
  else if Ascii.eqb c dquote then lit "&quot;"
  else if Ascii.eqb c "'" then lit "&apos;"
  else [c].

(** [ToGoodFileChar] as the specification words it: control characters
    become ['!'], characters of the bad-filename table become their
    replacement, everything else (wildcards included) is unchanged. *)
Definition GoodFileCharSpec (c : C) : C :=
  if ClassicLocale.iscntrl c then "!"%char
  else if Ascii.eqb c ":" then "-"%char
  else if Ascii.eqb c dquote then "'"%char
  else if Ascii.eqb c "<" then "("%char
  else if Ascii.eqb c ">" then ")"%char
  else if Ascii.eqb c "|" then "."%char
  else if Ascii.eqb c "/" then "\"%char
  else c.

(** The wildcard characters are ['*'] and ['?']. *)
Definition IsWildcardSpec (c : C) : bool :=
  Ascii.eqb c "*" || Ascii.eqb c "?".

(** A decimal digit or ['.']. *)
Definition IsDigitOrDot (c : C) : bool :=
  existsb (Ascii.eqb c) (lit "0123456789.").

(** The characters that remain after one optional leading ['-']. *)
Definition after_optional_minus (str : strT) : strT :=
  match str with
  | c :: rest => if Ascii.eqb c "-" then rest else str
  | [] => []
  end.

(** The four characters that [ToXmlSafe] removes from a string
    altogether (['&'] stays, as the first character of every escape). *)
Definition IsRawMarkup (c : C) : bool :=
  Ascii.eqb c "<" || Ascii.eqb c ">" || Ascii.eqb c dquote || Ascii.eqb c "'".

(** Any of the five characters of [kXmlReplace]. *)
Definition IsXmlSpecial (c : C) : bool :=
  existsb (fun e => Ascii.eqb c (symbol e)) kXmlReplace.

(** Reading escape sequences back; used to show that escaping loses
    nothing. *)
Fixpoint XmlUnescape (s : strT) : strT :=
  match s with
  | [] => []
  | c :: rest =>
      if Ascii.eqb c "&" then
        match rest with
        | a :: b :: d :: rest3 =>
            if Ascii.eqb a "l" && Ascii.eqb b "t" && Ascii.eqb d ";"
            then "<"%char :: XmlUnescape rest3
            else if Ascii.eqb a "g" && Ascii.eqb b "t" && Ascii.eqb d ";"
            then ">"%char :: XmlUnescape rest3
            else
              match rest3 with
              | e :: rest4 =>
                  if Ascii.eqb a "a" && Ascii.eqb b "m" && Ascii.eqb d "p"
                     && Ascii.eqb e ";"
                  then "&"%char :: XmlUnescape rest4
                  else
                    match rest4 with
                    | f :: rest5 =>
                        if Ascii.eqb a "q" && Ascii.eqb b "u" && Ascii.eqb d "o"
                           && Ascii.eqb e "t" && Ascii.eqb f ";"
                        then dquote :: XmlUnescape rest5
                        else if Ascii.eqb a "a" && Ascii.eqb b "p"
                                && Ascii.eqb d "o" && Ascii.eqb e "s"
                                && Ascii.eqb f ";"
                        then "'"%char :: XmlUnescape rest5
                        else c :: XmlUnescape rest
                    | [] => c :: XmlUnescape rest
                    end
              | [] => c :: XmlUnescape rest
              end
        | _ => c :: XmlUnescape rest
        end
      else c :: XmlUnescape rest
  end.

(** A list built by appending the elements one at a time. *)
Definition built_from (elems : list strT) : StrList.StrListT :=
  fold_left StrList.push_back elems {| StrList.list_ := [] |}.

(** * Properties of the embedding *)

(** ** Exhaustive reasoning over the 256 code units *)

Ltac each_char c := destruct c as [[] [] [] [] [] [] [] []].

Lemma toupper_idempotent (c : C) :
  CharUtil.ToUpper (CharUtil.ToUpper c) = CharUtil.ToUpper c.
Proof. each_char c; reflexivity. Qed.

Lemma tolower_idempotent (c : C) :
  CharUtil.ToLower (CharUtil.ToLower c) = CharUtil.ToLower c.
Proof. each_char c; reflexivity. Qed.

(** ** The in-place algorithms against their functional reading *)

Lemma transform_loop_spec (f : C -> C) (rest : strT) :
  forall done : strT,
    ranges.transform_loop f (done ++ rest) (length done) (length rest)
    = done ++ map f rest.
Proof.
  induction rest as [|c rest IH]; intros done; simpl.
  - reflexivity.
  - rewrite list_lookup_middle by reflexivity.
    replace (<[length done := f c]> (done ++ c :: rest))
      with ((done ++ [f c]) ++ rest).
    + replace (S (length done)) with (length (done ++ [f c]))
        by (rewrite length_app; simpl; lia).
      rewrite IH, <- app_assoc. reflexivity.
    + rewrite insert_app_r_alt by lia.
      rewrite Nat.sub_diag, <- app_assoc. reflexivity.
Qed.

Lemma transform_map (str : strT) (f : C -> C) :
  ranges.transform str f = map f str.
Proof. exact (transform_loop_spec f str []). Qed.

Lemma filter_keep_cons (pred : C -> bool) (c : C) (rest : strT) :
  List.filter (keep pred) (c :: rest)
  = if pred c then List.filter (keep pred) rest
    else c :: List.filter (keep pred) rest.
Proof. unfold keep. simpl. destruct (pred c); reflexivity. Qed.

Lemma remove_if_loop_spec (pred : C -> bool) (rest : strT) :
  forall kept junk : strT,
    exists junk' : strT,
      ranges.remove_if_loop pred (kept ++ junk ++ rest)
        (length kept) (length kept + length junk) (length rest)
      = ((kept ++ List.filter (keep pred) rest) ++ junk',
         length (kept ++ List.filter (keep pred) rest))
      /\ length ((kept ++ List.filter (keep pred) rest) ++ junk')
         = length (kept ++ junk ++ rest).
Proof.
  induction rest as [|c rest IH]; intros kept junk.
  - exists junk. simpl. rewrite !app_nil_r. split; reflexivity.
  - assert (Hc : (kept ++ junk ++ c :: rest) !! (length kept + length junk)
                 = Some c).
    { rewrite app_assoc. apply list_lookup_middle.
      rewrite length_app. reflexivity. }
    cbn [length ranges.remove_if_loop]. rewrite Hc, filter_keep_cons.
    destruct (pred c) eqn:Hp.
    + destruct (IH kept (junk ++ [c])) as (junk' & Hrun & Hlen).
      replace (kept ++ (junk ++ [c]) ++ rest)
        with (kept ++ junk ++ c :: rest) in Hrun, Hlen
        by (rewrite <- (app_assoc junk); reflexivity).
      replace (length kept + length (junk ++ [c]))
        with (S (length kept + length junk)) in Hrun
        by (rewrite length_app; simpl; lia).
      exists junk'. split; assumption.
    + assert (Hins : <[length kept := c]> (kept ++ junk ++ c :: rest)
                     = (kept ++ [c]) ++ drop 1 (junk ++ [c]) ++ rest).
      { rewrite insert_app_r_alt by lia. rewrite Nat.sub_diag.
        rewrite <- app_assoc. destruct junk as [|j junk]; simpl.
        - reflexivity.
        - rewrite drop_0, <- app_assoc. reflexivity. }
      assert (Hjunk : length (drop 1 (junk ++ [c])) = length junk).
      { rewrite length_drop, length_app. simpl. lia. }
      destruct (IH (kept ++ [c]) (drop 1 (junk ++ [c])))
        as (junk' & Hrun & Hlen).
      rewrite <- Hins in Hrun, Hlen.
      replace (length (kept ++ [c]) + length (drop 1 (junk ++ [c])))
        with (S (length kept + length junk)) in Hrun
        by (rewrite Hjunk, length_app; simpl; lia).
      replace (length (kept ++ [c])) with (S (length kept)) in Hrun
        by (rewrite length_app; simpl; lia).
      replace ((kept ++ [c]) ++ List.filter (keep pred) rest)
        with (kept ++ c :: List.filter (keep pred) rest) in Hrun, Hlen
        by (rewrite <- app_assoc; reflexivity).
      exists junk'. split; [assumption|].
      rewrite Hlen, length_insert. reflexivity.
Qed.

Lemma erase_remove_if (str : strT) (pred : C -> bool) :
  (let '(str', (removedBeg, removedEnd)) := ranges.remove_if str pred in
   basic_string.erase str' removedBeg removedEnd)
  = List.filter (keep pred) str.
Proof.
  unfold ranges.remove_if.
  destruct (remove_if_loop_spec pred str [] []) as (junk' & Hrun & Hlen).
  simpl in Hrun, Hlen. rewrite Hrun.
  unfold basic_string.erase.
  rewrite take_app_length, <- Hlen, drop_all, app_nil_r. reflexivity.
Qed.

(** ** The search members of basic_string *)

Section search.

Import basic_string.

Variable charset : strT.

(** Membership in the trim set, and its negation. *)
Let inside (x : C) : Prop := in_charset charset x = true.
Let outside (x : C) : Prop := in_charset charset x = false.

Lemma forallb_lookup (p : C -> bool) (l : strT) :
  forallb p l = true <-> (forall j y, l !! j = Some y -> p y = true).
Proof.
  induction l as [|x l IH]; simpl.
  - split; [intros _ j y Hj; destruct j; discriminate | reflexivity].
  - rewrite andb_true_iff, IH. split.
    + intros [Hx Hl] [|j] y Hj; simpl in Hj.
      * congruence.
      * eauto.
    + intros H. split.
      * apply (H 0). reflexivity.
      * intros j y Hj. apply (H (S j)). exact Hj.
Qed.

Lemma first_not_of_from_Some (s : strT) :
  forall (i0 k : Z),
    first_not_of_from charset s i0 = Some k <->
    exists (i : nat) (x : C),
      k = (i0 + Z.of_nat i)%Z /\ s !! i = Some x /\ outside x
      /\ (forall j y, j < i -> s !! j = Some y -> inside y).
Proof.
  subst inside outside.
  induction s as [|c s IH]; intros i0 k; simpl.
  - split; [discriminate | intros (i & x & _ & Hx & _); destruct i; discriminate].
  - destruct (in_charset charset c) eqn:Hc.
    + rewrite IH. split.
      * intros (i & x & -> & Hx & Hout & Hpre).
        exists (S i), x. repeat split; [lia | exact Hx | exact Hout |].
        intros [|j] y Hj Hy; simpl in Hy; [congruence | apply (Hpre j); [lia | exact Hy]].
      * intros (i & x & -> & Hx & Hout & Hpre).
        destruct i as [|i]; simpl in Hx; [congruence|].
        exists i, x. repeat split; [lia | exact Hx | exact Hout |].
        intros j y Hj Hy. apply (Hpre (S j)); [lia | exact Hy].
    + split.
      * intros [= <-]. exists 0, c.
        repeat split; [lia | exact Hc | intros j y Hj; lia].
      * intros (i & x & -> & Hx & Hout & Hpre).
        destruct i as [|i]; [f_equal; lia|].
        specialize (Hpre 0 c ltac:(lia) eq_refl). congruence.
Qed.

Lemma first_not_of_from_None (s : strT) :
  forall i0 : Z,
    first_not_of_from charset s i0 = None <-> forallb (in_charset charset) s = true.
Proof.
  induction s as [|c s IH]; intros i0; simpl.
  - split; reflexivity.
  - destruct (in_charset charset c); simpl; [apply IH | split; discriminate].
Qed.

Lemma last_not_of_below_Some (str : strT) :
  forall (n : nat) (k : Z),
    last_not_of_below charset str n = Some k <->
    exists (i : nat) (x : C),
      k = Z.of_nat i /\ i < n /\ str !! i = Some x /\ outside x
      /\ (forall j y, i < j < n -> str !! j = Some y -> inside y).
Proof.
  subst inside outside.
  induction n as [|n IH]; intros k; simpl.
  - split; [discriminate | intros (i & x & _ & Hi & _); lia].
  - assert (Hstep :
      (exists (i : nat) (x : C),
          k = Z.of_nat i /\ i < n /\ str !! i = Some x
          /\ in_charset charset x = false
          /\ (forall j y, i < j < n -> str !! j = Some y ->
                          in_charset charset y = true)) ->
      (forall y, str !! n = Some y -> in_charset charset y = true) ->
      exists (i : nat) (x : C),
          k = Z.of_nat i /\ i < S n /\ str !! i = Some x
          /\ in_charset charset x = false
          /\ (forall j y, i < j < S n -> str !! j = Some y ->
                          in_charset charset y = true)).
    { intros (i & x & -> & Hi & Hx & Hout & Hpost) Hn.
      exists i, x. repeat split; [lia | exact Hx | exact Hout |].
      intros j y Hj Hy. destruct (decide (j = n)) as [->|Hne].
      - apply Hn, Hy.
      - apply (Hpost j); [lia | exact Hy]. }
    assert (Hback :
      (exists (i : nat) (x : C),
          k = Z.of_nat i /\ i < S n /\ str !! i = Some x
          /\ in_charset charset x = false
          /\ (forall j y, i < j < S n -> str !! j = Some y ->
                          in_charset charset y = true)) ->
      (forall y, str !! n = Some y -> in_charset charset y = true) ->
      exists (i : nat) (x : C),
          k = Z.of_nat i /\ i < n /\ str !! i = Some x
          /\ in_charset charset x = false
          /\ (forall j y, i < j < n -> str !! j = Some y ->
                          in_charset charset y = true)).
    { intros (i & x & -> & Hi & Hx & Hout & Hpost) Hn.
      destruct (decide (i = n)) as [->|Hne].
      - specialize (Hn x Hx). congruence.
      - exists i, x. repeat split; [lia | exact Hx | exact Hout |].
        intros j y Hj Hy. apply (Hpost j); [lia | exact Hy]. }
    destruct (str !! n) as [c|] eqn:Hc.
    + destruct (in_charset charset c) eqn:Hin.
      * rewrite IH. split; intros H.
        -- apply Hstep; [exact H | intros y [= <-]; exact Hin].
        -- apply Hback; [exact H | intros y [= <-]; exact Hin].
      * split.
        -- intros [= <-]. exists n, c.
           repeat split; [lia | exact Hc | exact Hin | intros j y Hj; lia].
        -- intros (i & x & -> & Hi & Hx & Hout & Hpost).
           destruct (decide (i = n)) as [->|Hne]; [reflexivity|].
           specialize (Hpost n c ltac:(lia) Hc). congruence.
    + rewrite IH. split; intros H.
      * apply Hstep; [exact H | discriminate].
      * apply Hback; [exact H | discriminate].
Qed.

Lemma last_not_of_below_None (str : strT) :
  forall n : nat,
    last_not_of_below charset str n = None <->
    (forall j y, j < n -> str !! j = Some y -> inside y).
Proof.
  subst inside.
  induction n as [|n IH]; simpl.
  - split; [intros _ j y Hj; lia | reflexivity].
  - destruct (str !! n) as [c|] eqn:Hc.
    + destruct (in_charset charset c) eqn:Hin.
      * rewrite IH. split; intros H j y Hj Hy.
        -- destruct (decide (j = n)) as [->|Hne]; [congruence|].
           apply (H j); [lia | exact Hy].
        -- apply (H j); [lia | exact Hy].
      * split; [discriminate|]. intros H.
        specialize (H n c ltac:(lia) Hc). congruence.
    + rewrite IH. split; intros H j y Hj Hy.
      * destruct (decide (j = n)) as [->|Hne]; [congruence|].
        apply (H j); [lia | exact Hy].
      * apply (H j); [lia | exact Hy].
Qed.

End search.

(** ** Trimming *)

Section trimming.

Import basic_string.

Variable trimCharset : strT.

Lemma find_first_not_of_bound (str : strT) (k : Z) :
  find_first_not_of str trimCharset = Some k ->
  (0 <= k < size str)%Z.
Proof.
  unfold find_first_not_of. rewrite first_not_of_from_Some.
  intros (i & x & -> & Hx & _). apply lookup_lt_Some in Hx.
  unfold size. lia.
Qed.

Lemma find_last_after_first (str : strT) (k : Z) :
  find_first_not_of str trimCharset = Some k ->
  exists l : Z,
    find_last_not_of str trimCharset = Some l /\ (k <= l < size str)%Z.
Proof.
  unfold find_first_not_of, find_last_not_of.
  rewrite first_not_of_from_Some. intros (i & x & -> & Hx & Hout & Hpre).
  destruct (last_not_of_below trimCharset str (length str)) as [l|] eqn:Hl.
  - exists l. split; [reflexivity|].
    apply last_not_of_below_Some in Hl.
    destruct Hl as (i' & y & -> & Hi' & Hy & Hyout & _).
    unfold size. split; [|lia].
    destruct (decide (i <= i')) as [|Hlt]; [lia|].
    specialize (Hpre i' y ltac:(lia) Hy). congruence.
  - rewrite last_not_of_below_None in Hl.
    specialize (Hl i x (lookup_lt_Some _ _ _ Hx) Hx). congruence.
Qed.

Lemma ToTrimmedLeading_all (str : strT) :
  forallb (in_charset trimCharset) str = true ->
  StrUtil.ToTrimmedLeading str trimCharset = Ok [].
Proof.
  intros Hall. unfold StrUtil.ToTrimmedLeading, find_first_not_of.
  apply (first_not_of_from_None trimCharset str 0) in Hall.
  rewrite Hall. reflexivity.
Qed.

Lemma ToTrimmedLeading_some (str : strT) (k : Z) :
  (size str < npos)%Z ->
  find_first_not_of str trimCharset = Some k ->
  StrUtil.ToTrimmedLeading str trimCharset = Ok (drop (Z.to_nat k) str).
Proof.
  intros Hfit Hk. unfold StrUtil.ToTrimmedLeading. rewrite Hk.
  pose proof (find_first_not_of_bound _ _ Hk) as Hb.
  unfold assign, size_t, npos in *.
  rewrite Z.mod_small by lia.
  destruct (Z.leb_spec k (size str)) as [_|]; [|lia].
  f_equal. apply take_ge. rewrite length_drop. unfold size in *. lia.
Qed.

Lemma ToTrimmed_all (str : strT) :
  forallb (in_charset trimCharset) str = true ->
  StrUtil.ToTrimmed str trimCharset = Ok [].
Proof.
  intros Hall. unfold StrUtil.ToTrimmed, find_first_not_of.
  apply (first_not_of_from_None trimCharset str 0) in Hall.
  rewrite Hall. reflexivity.
Qed.

Lemma ToTrimmed_some (str : strT) (k l : Z) :
  (size str < npos)%Z ->
  find_first_not_of str trimCharset = Some k ->
  find_last_not_of str trimCharset = Some l ->
  StrUtil.ToTrimmed str trimCharset
  = Ok (take (Z.to_nat (l - k + 1)) (drop (Z.to_nat k) str)).
Proof.
  intros Hfit Hk Hl. unfold StrUtil.ToTrimmed. rewrite Hk, Hl.
  destruct (find_last_after_first _ _ Hk) as (l' & Hl' & Hb).
  rewrite Hl in Hl'. injection Hl' as <-.
  pose proof (find_first_not_of_bound _ _ Hk) as Hb'.
  rewrite bool_decide_eq_true_2 by discriminate.
  unfold assign, size_t, npos, index in *. simpl.
  rewrite Z.mod_small by lia.
  destruct (Z.leb_spec k (size str)) as [_|]; [|lia].
  rewrite Z.min_l by lia. reflexivity.
Qed.

Lemma ToTrimmed_tight_result (str : strT) (k l : Z) :
  find_first_not_of str trimCharset = Some k ->
  find_last_not_of str trimCharset = Some l ->
  tight trimCharset (take (Z.to_nat (l - k + 1)) (drop (Z.to_nat k) str)).
Proof.
  intros Hk Hl.
  destruct (find_last_after_first _ _ Hk) as (l' & Hl' & Hb).
  rewrite Hl in Hl'. injection Hl' as <-.
  pose proof (find_first_not_of_bound _ _ Hk) as Hb'.
  unfold find_first_not_of in Hk. unfold find_last_not_of in Hl.
  apply first_not_of_from_Some in Hk.
  destruct Hk as (i & x & -> & Hx & Hout & _).
  apply last_not_of_below_Some in Hl.
  destruct Hl as (i' & y & -> & Hi' & Hy & Hyout & _).
  unfold size in *. exists x, y.
  assert (Hlen : length (take (Z.to_nat (Z.of_nat i' - (0 + Z.of_nat i) + 1))
                   (drop (Z.to_nat (0 + Z.of_nat i)) str)) = i' - i + 1).
  { rewrite length_take, length_drop. lia. }
  rewrite Hlen.
  repeat split; try assumption.
  - rewrite lookup_take_lt by lia. rewrite lookup_drop.
    replace (Z.to_nat (0 + Z.of_nat i) + 0) with i by lia. exact Hx.
  - rewrite lookup_take_lt by lia. rewrite lookup_drop.
    replace (Z.to_nat (0 + Z.of_nat i) + (i' - i + 1 - 1)) with i' by lia.
    exact Hy.
Qed.

Lemma tight_nonempty (r : strT) : tight trimCharset r -> 0 < length r.
Proof.
  intros (x & _ & Hx & _). apply lookup_lt_Some in Hx. exact Hx.
Qed.

Lemma ToTrimmed_tight_fixed (r : strT) :
  (size r < npos)%Z -> tight trimCharset r ->
  StrUtil.ToTrimmed r trimCharset = Ok r.
Proof.
  intros Hfit Ht. pose proof (tight_nonempty r Ht) as Hpos.
  destruct Ht as (x & y & Hx & Hxout & Hy & Hyout).
  assert (Hk : find_first_not_of r trimCharset = Some 0%Z).
  { unfold find_first_not_of. apply first_not_of_from_Some.
    exists 0, x. repeat split; [exact Hx | exact Hxout | intros j ? Hj; lia]. }
  assert (Hl : find_last_not_of r trimCharset
               = Some (Z.of_nat (length r - 1))).
  { unfold find_last_not_of. apply last_not_of_below_Some.
    exists (length r - 1), y.
    repeat split; [lia | exact Hy | exact Hyout | intros j ? Hj; lia]. }
  rewrite (ToTrimmed_some r _ _ Hfit Hk Hl).
  f_equal. simpl. rewrite drop_0. apply take_ge. lia.
Qed.

End trimming.

(** ** XML escaping *)

Section xml.

Import basic_string.

Lemma find_from_None (c : C) (s : strT) :
  forall i : Z, find_from c s i = None <-> forallb (differs c) s = true.
Proof.
  induction s as [|x s IH]; intros i; simpl.
  - split; reflexivity.
  - unfold differs at 1. destruct (Ascii.eqb x c); simpl.
    + split; discriminate.
    + apply IH.
Qed.

Lemma find_from_Some (c : C) (s : strT) :
  forall i p : Z,
    find_from c s i = Some p ->
    exists mid rest : strT,
      s = mid ++ c :: rest /\ forallb (differs c) mid = true
      /\ p = (i + Z.of_nat (length mid))%Z.
Proof.
  induction s as [|x s IH]; intros i p; simpl.
  - discriminate.
  - destruct (Ascii.eqb x c) eqn:Hx.
    + intros [= <-]. apply Ascii.eqb_eq in Hx. subst x.
      exists [], s. repeat split. simpl. lia.
    + intros Hp. destruct (IH _ _ Hp) as (mid & rest & -> & Hmid & ->).
      exists (x :: mid), rest. repeat split.
      * simpl. unfold differs at 1. rewrite Hx. exact Hmid.
      * simpl. lia.
Qed.

Lemma find_app_at (pre rest : strT) (c : C) :
  find (pre ++ rest) c (size pre) = find_from c rest (size pre).
Proof.
  unfold find, size. rewrite Nat2Z.id, drop_app_length. reflexivity.
Qed.

Lemma subst1_free (sym : C) (code s : strT) :
  forallb (differs sym) s = true -> flat_map (subst1 sym code) s = s.
Proof.
  induction s as [|x s IH]; simpl; [reflexivity|].
  rewrite andb_true_iff. intros [Hx Hs].
  unfold subst1 at 1. unfold differs in Hx.
  destruct (Ascii.eqb x sym); [discriminate|]. simpl. f_equal. auto.
Qed.

Lemma occurrences_free (sym : C) (s : strT) :
  forallb (differs sym) s = true -> occurrences sym s = 0.
Proof.
  unfold occurrences.
  induction s as [|x s IH]; simpl; [reflexivity|].
  rewrite andb_true_iff. intros [Hx Hs]. unfold differs in Hx.
  destruct (Ascii.eqb x sym); [discriminate|]. auto.
Qed.

Lemma occurrences_app (sym : C) (s t : strT) :
  occurrences sym (s ++ t) = occurrences sym s + occurrences sym t.
Proof. unfold occurrences. rewrite List.filter_app, length_app. reflexivity. Qed.

Lemma occurrences_le (sym : C) (s : strT) : occurrences sym s <= length s.
Proof. unfold occurrences. apply List.filter_length_le. Qed.

Lemma subst1_grows (sym : C) (c0 : C) (ctail s : strT) :
  length s <= length (flat_map (subst1 sym (c0 :: ctail)) s).
Proof.
  induction s as [|x s IH]; simpl; [lia|].
  rewrite length_app. unfold subst1 at 1.
  destruct (Ascii.eqb x sym); simpl; lia.
Qed.

Lemma ToXmlSafe_while_spec (sym c0 : C) (ctail : strT) :
  forallb (differs sym) ctail = true ->
  forall (fuel : nat) (pre rest : strT),
    occurrences sym rest <= fuel ->
    (size (pre ++ flat_map (subst1 sym (c0 :: ctail)) rest) < npos)%Z ->
    StrUtil.ToXmlSafe_while fuel sym (c0 :: ctail) (pre ++ rest)
      (find (pre ++ rest) sym (size pre))
    = Ok (pre ++ flat_map (subst1 sym (c0 :: ctail)) rest).
Proof.
  intros Htail. induction fuel as [|fuel IH]; intros pre rest Hocc Hfit;
    rewrite find_app_at;
    destruct (find_from sym rest (size pre)) as [p|] eqn:Hfind.
  - apply find_from_Some in Hfind.
    destruct Hfind as (mid & rest' & -> & Hmid & ->).
    rewrite occurrences_app in Hocc. unfold occurrences in Hocc at 2.
    simpl in Hocc. rewrite Ascii.eqb_refl in Hocc. simpl in Hocc. lia.
  - apply find_from_None in Hfind. rewrite subst1_free by exact Hfind.
    reflexivity.
  - apply find_from_Some in Hfind.
    destruct Hfind as (mid & rest' & -> & Hmid & ->).
    assert (Hflat : flat_map (subst1 sym (c0 :: ctail)) (mid ++ sym :: rest')
                    = mid ++ (c0 :: ctail)
                      ++ flat_map (subst1 sym (c0 :: ctail)) rest').
    { rewrite flat_map_app, subst1_free by exact Hmid. simpl.
      unfold subst1 at 1. rewrite Ascii.eqb_refl. reflexivity. }
    rewrite Hflat in Hfit |- *.
    pose proof (subst1_grows sym c0 ctail rest') as Hgrow.
    assert (Hp : (size pre + Z.of_nat (length mid) + 1 < 2 ^ 64)%Z).
    { unfold size, npos in *. rewrite !length_app in Hfit. simpl in Hfit. lia. }
    cbn [StrUtil.ToXmlSafe_while].
    assert (Hrep : replace (pre ++ mid ++ sym :: rest')
                     (size pre + Z.of_nat (length mid)) 1 (c0 :: ctail)
                   = Ok ((pre ++ mid ++ [c0]) ++ ctail ++ rest')).
    { unfold replace, size. rewrite !length_app. simpl.
      destruct (Z.leb_spec (Z.of_nat (length pre) + Z.of_nat (length mid))
                  (Z.of_nat (length pre + (length mid + S (length rest')))))
        as [_|]; [|lia].
      rewrite Z.min_l by lia. f_equal.
      replace (Z.to_nat (Z.of_nat (length pre) + Z.of_nat (length mid)))
        with (length (pre ++ mid)) by (rewrite length_app; lia).
      replace (Z.to_nat (Z.of_nat (length pre) + Z.of_nat (length mid) + 1))
        with (length (pre ++ mid) + 1) by (rewrite length_app; lia).
      rewrite (app_assoc pre mid (sym :: rest')).
      rewrite take_app_length, drop_app_add. simpl. rewrite drop_0.
      rewrite <- !app_assoc. reflexivity. }
    rewrite Hrep. cbn [mbind outcome_bind].
    replace (size_t (size pre + Z.of_nat (length mid) + 1))
      with (size (pre ++ mid ++ [c0])).
    + rewrite IH.
      * rewrite flat_map_app, subst1_free by exact Htail.
        rewrite <- !app_assoc. reflexivity.
      * rewrite !occurrences_app in *.
        rewrite (occurrences_free _ _ Htail).
        unfold occurrences in Hocc at 2. simpl in Hocc.
        rewrite Ascii.eqb_refl in Hocc. simpl in Hocc.
        fold (occurrences sym rest') in Hocc. lia.
      * rewrite flat_map_app, subst1_free by exact Htail.
        revert Hfit. unfold size. rewrite <- !app_assoc. simpl. trivial.
    + unfold size_t, size in *. rewrite Z.mod_small by lia.
      rewrite !length_app. simpl. lia.
  - apply find_from_None in Hfind. rewrite subst1_free by exact Hfind.
    reflexivity.
Qed.

End xml.

Section xml_passes.

Import basic_string.

Lemma kXmlReplace_well_formed : Forall well_formed_markup kXmlReplace.
Proof.
  repeat (apply Forall_cons; split;
          [eexists _, _; split; reflexivity|]).
  apply Forall_nil_2.
Qed.

Lemma escape_pass_grows (e : XmlMarkup) (s : strT) :
  well_formed_markup e -> length s <= length (escape_pass s e).
Proof.
  intros (c0 & ctail & Hcode & _). unfold escape_pass. rewrite Hcode.
  apply subst1_grows.
Qed.

Lemma fold_escape_grows (es : list XmlMarkup) :
  Forall well_formed_markup es ->
  forall s : strT, length s <= length (fold_left escape_pass es s).
Proof.
  induction 1 as [|e es He Hes IH]; intros s; simpl; [lia|].
  pose proof (escape_pass_grows e s He). specialize (IH (escape_pass s e)).
  lia.
Qed.

Lemma ToXmlSafe_for_spec (entries : list XmlMarkup) :
  forall (index : nat) (str : strT),
    drop index kXmlReplace = entries ->
    (size (fold_left escape_pass entries str) < npos)%Z ->
    StrUtil.ToXmlSafe_for entries index str
    = Ok (fold_left escape_pass entries str).
Proof.
  induction entries as [|e es IH]; intros index str Hdrop Hfit; simpl.
  - reflexivity.
  - assert (Hidx : kXmlReplace !! index = Some e).
    { pose proof (lookup_drop kXmlReplace index 0) as H.
      rewrite Hdrop, Nat.add_0_r in H. simpl in H. congruence. }
    rewrite Hidx.
    assert (Hes : drop (S index) kXmlReplace = es).
    { rewrite (drop_S _ _ _ Hidx) in Hdrop. congruence. }
    assert (Hwf : Forall well_formed_markup (e :: es)).
    { rewrite <- Hdrop. apply Forall_drop, kXmlReplace_well_formed. }
    apply Forall_cons in Hwf. destruct Hwf as [He Hwf].
    pose proof (fold_escape_grows es Hwf (escape_pass str e)) as Hgrow.
    destruct He as (c0 & ctail & Hcode & Htail).
    simpl in Hfit. unfold escape_pass at 2 in Hfit. unfold escape_pass at 2.
    unfold escape_pass in Hgrow at 1 3. rewrite Hcode in *.
    assert (Hw := ToXmlSafe_while_spec (symbol e) c0 ctail Htail
                    (length str) [] str (occurrences_le _ _)).
    cbn [app] in Hw. change (size []) with 0%Z in Hw.
    rewrite Hw.
    + cbn [mbind outcome_bind]. apply IH; assumption.
    + unfold size in *. lia.
Qed.

Lemma flat_map_compose (f g : C -> strT) (l : strT) :
  flat_map f (flat_map g l) = flat_map (fun x => flat_map f (g x)) l.
Proof.
  induction l as [|x l IH]; simpl; [reflexivity|].
  rewrite flat_map_app, IH. reflexivity.
Qed.

Lemma fold_escape_simultaneous (str : strT) :
  fold_left escape_pass kXmlReplace str = flat_map XmlEscapeChar str.
Proof.
  unfold kXmlReplace. cbn [fold_left]. unfold escape_pass.
  rewrite !flat_map_compose. apply flat_map_ext.
  intros c. each_char c; reflexivity.
Qed.

Lemma ToXmlSafe_simultaneous (str : strT) :
  (size (flat_map XmlEscapeChar str) < npos)%Z ->
  StrUtil.ToXmlSafe str = Ok (flat_map XmlEscapeChar str).
Proof.
  intros Hfit. rewrite <- fold_escape_simultaneous in Hfit |- *.
  apply ToXmlSafe_for_spec; [reflexivity | exact Hfit].
Qed.

End xml_passes.

(** ** Totality of the trimming operations *)

Lemma assign_in_range (str : strT) (pos count : Z) :
  (pos <= basic_string.size str)%Z ->
  exists r : strT, basic_string.assign str pos count = Ok r.
Proof.
  intros Hpos. unfold basic_string.assign.
  destruct (Z.leb_spec pos (basic_string.size str)) as [_|]; [|lia].
  eexists. reflexivity.
Qed.

Lemma ToTrimmedLeading_total (str trimCharset : strT) :
  exists r : strT, StrUtil.ToTrimmedLeading str trimCharset = Ok r.
Proof.
  unfold StrUtil.ToTrimmedLeading.
  destruct (basic_string.find_first_not_of str trimCharset) as [k|] eqn:Hk.
  - apply assign_in_range.
    pose proof (find_first_not_of_bound _ _ _ Hk). lia.
  - eexists. reflexivity.
Qed.

Lemma ToTrimmed_total (str trimCharset : strT) :
  exists r : strT, StrUtil.ToTrimmed str trimCharset = Ok r.
Proof.
  unfold StrUtil.ToTrimmed.
  destruct (basic_string.find_first_not_of str trimCharset) as [k|] eqn:Hk.
  - destruct (find_last_after_first _ _ _ Hk) as (l & -> & _).
    rewrite bool_decide_eq_true_2 by discriminate.
    cbn [mbind outcome_bind assert].
    apply assign_in_range.
    pose proof (find_first_not_of_bound _ _ _ Hk). lia.
  - eexists. reflexivity.
Qed.

(** ** Equality of string lists *)

Lemma equal_loop_spec (i : list strT) :
  forall j : list strT,
    length i = length j ->
    StrList.equal_loop i j = Ok (bool_decide (i = j)).
Proof.
  induction i as [|x i IH]; intros [|y j] Hlen; simpl in *; try discriminate.
  - reflexivity.
  - destruct (decide (x = y)) as [->|Hne].
    + rewrite bool_decide_eq_false_2 by (intros H; apply H; reflexivity).
      rewrite IH by lia. f_equal. apply bool_decide_ext.
      split; [intros ->; reflexivity | intros [= ->]; reflexivity].
    + rewrite bool_decide_eq_true_2 by exact Hne.
      rewrite bool_decide_eq_false_2 by (intros [= H _]; contradiction).
      reflexivity.
Qed.

Lemma equal_spec (lhs rhs : StrList.StrListT) :
  StrList.equal lhs rhs
  = Ok (bool_decide (StrList.list_ lhs = StrList.list_ rhs)).
Proof.
  unfold StrList.equal, StrList.size.
  destruct (decide (length (StrList.list_ lhs) = length (StrList.list_ rhs)))
    as [Heq|Hne].
  - rewrite bool_decide_eq_false_2 by (intros H; apply H; exact Heq).
    apply equal_loop_spec, Heq.
  - rewrite bool_decide_eq_true_2 by exact Hne.
    rewrite bool_decide_eq_false_2 by (intros H; apply Hne; rewrite H; reflexivity).
    reflexivity.
Qed.

Lemma list_eq_elementwise (l k : list strT) :
  l = k <->
  length l = length k
  /\ (forall (i : nat) (x y : strT), l !! i = Some x -> k !! i = Some y -> x = y).
Proof.
  split.
  - intros ->. split; [reflexivity | intros i x y Hx Hy; congruence].
  - intros [Hlen Helem]. apply list_eq_same_length with (length l);
      [symmetry; exact Hlen | reflexivity |].
    intros i x y _ Hx Hy. exact (Helem i x y Hx Hy).
Qed.

(** ** File-name characters *)

Lemma ToGoodFileChar_spec (c : C) :
  CharUtil.ToGoodFileChar c = GoodFileCharSpec c.
Proof. each_char c; reflexivity. Qed.

Lemma IsWildcardFileChar_spec (c : C) :
  CharUtil.IsWildcardFileChar c = IsWildcardSpec c.
Proof. each_char c; reflexivity. Qed.

(** ** Numeric strings *)

Lemma IsNumeric_char_spec (c : C) : CharUtil.IsNumeric c = IsDigitOrDot c.
Proof. each_char c; reflexivity. Qed.

Lemma forallb_pointwise (f g : C -> bool) (l : strT) :
  (forall x, f x = g x) -> forallb f l = forallb g l.
Proof.
  intros Hfg. induction l as [|x l IH]; simpl; [reflexivity|].
  rewrite Hfg, IH. reflexivity.
Qed.

(** What [IsNumeric] computes on every string: the string is not empty
    and what follows one optional leading minus sign consists of digits
    and dots. Nothing requires that remainder to be non-empty. *)
Lemma IsNumeric_reading (str : strT) :
  StrUtil.IsNumeric str
  = negb (basic_string.empty str)
    && forallb IsDigitOrDot (after_optional_minus str).
Proof.
  destruct str as [|c rest]; [reflexivity|].
  unfold StrUtil.IsNumeric, ranges.all_of, after_optional_minus.
  rewrite !(forallb_pointwise _ _ _ IsNumeric_char_spec).
  destruct (Ascii.eqb c "-"); reflexivity.
Qed.

(** ** Formatting a duration that is not negative *)

Lemma seconds_small (n : Z) :
  (0 <= n < 2 ^ 63)%Z -> chrono.seconds n = n.
Proof.
  intros Hn. unfold chrono.seconds. rewrite Z.mod_small by lia.
  destruct (Z.ltb_spec n (2 ^ 63)); [reflexivity | lia].
Qed.

Lemma vformat_HhMmSs (sec : Z) :
  (0 <= sec)%Z ->
  chrono.vformat (lit "{:%Hh:%Mm:%Ss}") sec
  = Ok (chrono.two_digits ((sec / 3600) mod 24) ++ lit "h:"
        ++ chrono.two_digits (sec mod 3600 / 60) ++ lit "m:"
        ++ chrono.two_digits (sec mod 60) ++ lit "s").
Proof.
  intros Hsec. unfold chrono.vformat, chrono.abs, chrono.time_of_day_of.
  destruct (Z.eqb_spec sec (- 2 ^ 63)) as [|_]; [lia|].
  cbn [mbind outcome_bind]. rewrite Z.abs_eq by lia.
  destruct (Z.ltb_spec sec 0) as [|_]; [lia|]. reflexivity.
Qed.

Lemma vformat_MmSs (sec : Z) :
  (0 <= sec)%Z ->
  chrono.vformat (lit "{:%Mm:%Ss}") sec
  = Ok (chrono.two_digits (sec mod 3600 / 60) ++ lit "m:"
        ++ chrono.two_digits (sec mod 60) ++ lit "s").
Proof.
  intros Hsec. unfold chrono.vformat, chrono.abs, chrono.time_of_day_of.
  destruct (Z.eqb_spec sec (- 2 ^ 63)) as [|_]; [lia|].
  cbn [mbind outcome_bind]. rewrite Z.abs_eq by lia.
  destruct (Z.ltb_spec sec 0) as [|_]; [lia|]. reflexivity.
Qed.

(** With at least one whole hour and fewer than [minDays] whole days,
    the seconds are formatted as they are: the day field is dropped and
    the hour field is the hour of the day. *)
Lemma GetDurationStr_below_minDays (totalSeconds minDays : Z) :
  (3600 <= totalSeconds < 2 ^ 63)%Z ->
  (totalSeconds / 86400 < minDays)%Z ->
  StrUtil.GetDurationStr totalSeconds minDays
  = Ok (chrono.two_digits ((totalSeconds / 3600) mod 24) ++ lit "h:"
        ++ chrono.two_digits (totalSeconds mod 3600 / 60) ++ lit "m:"
        ++ chrono.two_digits (totalSeconds mod 60) ++ lit "s").
Proof.
  intros Hrange Hdays. unfold StrUtil.GetDurationStr.
  change (StrUtil.uint64_t (60 * 60)) with 3600%Z.
  change (StrUtil.uint64_t (3600 * 24)) with 86400%Z.
  rewrite Z.div_div by lia. change (3600 * 24)%Z with 86400%Z.
  destruct (Z.leb_spec minDays (totalSeconds / 86400)) as [|_]; [lia|].
  destruct (Z.eqb_spec (totalSeconds / 3600) 0) as [H0|_].
  { pose proof (Z.div_le_mono 3600 totalSeconds 3600 ltac:(lia) ltac:(lia)) as H.
    change (3600 / 3600)%Z with 1%Z in H. lia. }
  rewrite seconds_small by lia. apply vformat_HhMmSs. lia.
Qed.

(** * The claims of the specification *)

Import basic_string.

(** C1: [GetDurationStr(90061, 3)] returns exactly ["01h:01m:01s"]:
    the whole-day count 1 is below [minDays] 3, so the day field is
    omitted, and the hour, minute and second fields show 1 hour,
    1 minute and 1 second, each zero-padded to 2 digits. *)
Theorem GetDurationStr_90061_is_01h_01m_01s :
  StrUtil.GetDurationStr 90061 3 = Ok (lit "01h:01m:01s")
  /\ (90061 / 86400 = 1)%Z
  /\ (90061 = 1 * 86400 + 1 * 3600 + 1 * 60 + 1)%Z.
Proof. repeat split; vm_compute; reflexivity. Qed.

(** C2: on the lone minus sign the code answers [true], where the
    claim says [false]: after the leading ['-'] is skipped the remaining
    range is empty and [all_of] holds vacuously. The other three
    examples of the claim evaluate as it says. *)
Theorem IsNumeric_lone_minus_is_true :
  StrUtil.IsNumeric (lit "-") = true
  /\ StrUtil.IsNumeric (lit "-123.5") = true
  /\ StrUtil.IsNumeric (lit "") = false
  /\ StrUtil.IsNumeric (lit "12-3") = false.
Proof. repeat split; reflexivity. Qed.

(** C3: [ToXmlSafe] terminates and replaces every occurrence of the
    five reserved characters by its escape sequence, all other
    characters being kept: the five passes in table order, ['&'] first,
    amount to one simultaneous substitution, so no ['&'] introduced by
    a later pass is escaped again. One application to ["a & b < c"]
    gives ["a &amp; b &lt; c"], and applying it to ["&amp;"] gives
    ["&amp;amp;"]. The hypothesis says that the escaped string has a
    representable size. *)
Theorem ToXmlSafe_escapes_every_occurrence (str : strT) :
  (size (flat_map XmlEscapeChar str) < npos)%Z ->
  StrUtil.ToXmlSafe str = Ok (flat_map XmlEscapeChar str)
  /\ map symbol kXmlReplace = ["&"; "<"; ">"; dquote; "'"]%char
  /\ StrUtil.ToXmlSafe (lit "a & b < c") = Ok (lit "a &amp; b &lt; c")
  /\ StrUtil.ToXmlSafe (lit "&amp;") = Ok (lit "&amp;amp;").
Proof.
  intros Hfit. split; [apply ToXmlSafe_simultaneous, Hfit|].
  repeat split; reflexivity.
Qed.

Lemma ToXmlSafe_escapes_every_occurrence_witness :
  (size (flat_map XmlEscapeChar (lit "<a href='x'>T&C</a>")) < npos)%Z
  /\ StrUtil.ToXmlSafe (lit "<a href='x'>T&C</a>")
     = Ok (lit "&lt;a href=&apos;x&apos;&gt;T&amp;C&lt;/a&gt;").
Proof.
  split; [vm_compute; reflexivity|].
  apply (ToXmlSafe_escapes_every_occurrence (lit "<a href='x'>T&C</a>")).
  vm_compute; reflexivity.
Defined.

(** C4: [ToGoodFileName(s, Remove)] maps every character through
    [ToGoodFileChar] (control characters to ['!'], bad-filename
    characters to their replacement, wildcards unchanged) and then
    deletes every ['*'] and ['?']; on ["my*file?.txt"] the result is
    ["myfile.txt"]. *)
Theorem ToGoodFileName_Remove_strips_wildcards (str : strT) :
  StrUtil.ToGoodFileName str StrUtil.ConvertWildcards_Remove
  = List.filter (fun c => negb (IsWildcardSpec c)) (map GoodFileCharSpec str)
  /\ GoodFileCharSpec "*" = "*"%char
  /\ GoodFileCharSpec "?" = "?"%char
  /\ StrUtil.GetGoodFileName (lit "my*file?.txt") StrUtil.ConvertWildcards_Remove
     = lit "myfile.txt".
Proof.
  split; [|repeat split; reflexivity].
  unfold StrUtil.ToGoodFileName. rewrite transform_map.
  etrans; [apply erase_remove_if|].
  rewrite (map_ext _ _ ToGoodFileChar_spec).
  apply List.filter_ext. intros c. unfold keep.
  rewrite IsWildcardFileChar_spec. reflexivity.
Qed.

(** C5: [GetTrimmedLeading(s, T)] splits [s] into a removed run and
    the result: every removed character belongs to [T], the result does
    not start with a character of [T] (the run is maximal), the sizes
    add up to [s.size()], and the result is empty exactly when every
    character of [s] belongs to [T]. *)
Theorem GetTrimmedLeading_removes_maximal_run (str trimCharset : strT) :
  (size str < npos)%Z ->
  exists removed rest : strT,
    str = removed ++ rest
    /\ StrUtil.GetTrimmedLeading str trimCharset = Ok rest
    /\ forallb (in_charset trimCharset) removed = true
    /\ match rest with
       | [] => True
       | c :: _ => in_charset trimCharset c = false
       end
    /\ (size rest + size removed = size str)%Z
    /\ (if forallb (in_charset trimCharset) str then rest = [] else rest <> []).
Proof.
  intros Hfit. unfold StrUtil.GetTrimmedLeading.
  destruct (find_first_not_of str trimCharset) as [k|] eqn:Hk.
  - rewrite (ToTrimmedLeading_some _ _ _ Hfit Hk).
    unfold find_first_not_of in Hk. apply first_not_of_from_Some in Hk.
    destruct Hk as (i & x & -> & Hx & Hout & Hpre).
    replace (Z.to_nat (0 + Z.of_nat i)) with i by lia.
    exists (take i str), (drop i str).
    assert (Hrest : drop i str = x :: drop (S i) str) by (apply drop_S, Hx).
    repeat split.
    + symmetry. apply take_drop.
    + apply forallb_lookup. intros j y Hj.
      apply lookup_take_Some in Hj. destruct Hj as [Hj Hlt].
      exact (Hpre j y Hlt Hj).
    + rewrite Hrest. exact Hout.
    + unfold size. rewrite <- (take_drop i str) at 3.
      rewrite length_app. lia.
    + destruct (forallb (in_charset trimCharset) str) eqn:Hall.
      * rewrite forallb_lookup in Hall. specialize (Hall i x Hx). congruence.
      * rewrite Hrest. discriminate.
  - unfold find_first_not_of in Hk. apply first_not_of_from_None in Hk.
    rewrite (ToTrimmedLeading_all _ _ Hk).
    exists str, []. rewrite app_nil_r, Hk.
    repeat split; reflexivity.
Qed.

Lemma GetTrimmedLeading_removes_maximal_run_witness :
  (size (lit "  ab c  ") < npos)%Z
  /\ exists removed rest : strT,
       lit "  ab c  " = removed ++ rest
       /\ StrUtil.GetTrimmedLeading (lit "  ab c  ") (lit " ") = Ok rest
       /\ forallb (in_charset (lit " ")) removed = true
       /\ match rest with
          | [] => True
          | c :: _ => in_charset (lit " ") c = false
          end
       /\ (size rest + size removed = size (lit "  ab c  "))%Z
       /\ (if forallb (in_charset (lit " ")) (lit "  ab c  ")
           then rest = [] else rest <> []).
Proof.
  split; [vm_compute; reflexivity|].
  apply (GetTrimmedLeading_removes_maximal_run (lit "  ab c  ") (lit " ")).
  vm_compute; reflexivity.
Defined.

(** C6: [GetTrimmed] is idempotent: it returns a string, and trimming
    that string again with the same set returns it unchanged. *)
Theorem GetTrimmed_idempotent (str trimCharset : strT) :
  (size str < npos)%Z ->
  exists r : strT,
    StrUtil.GetTrimmed str trimCharset = Ok r
    /\ StrUtil.GetTrimmed r trimCharset = Ok r.
Proof.
  intros Hfit. unfold StrUtil.GetTrimmed.
  destruct (find_first_not_of str trimCharset) as [k|] eqn:Hk.
  - destruct (find_last_after_first _ _ _ Hk) as (l & Hl & Hb).
    pose proof (find_first_not_of_bound _ _ _ Hk) as Hb'.
    eexists. split; [apply ToTrimmed_some; eassumption|].
    apply ToTrimmed_tight_fixed.
    + unfold size in *. rewrite length_take, length_drop. lia.
    + apply ToTrimmed_tight_result; assumption.
  - unfold find_first_not_of in Hk. apply first_not_of_from_None in Hk.
    exists []. split; [apply ToTrimmed_all, Hk | reflexivity].
Qed.

Lemma GetTrimmed_idempotent_witness :
  (size (lit "  ab c  ") < npos)%Z
  /\ exists r : strT,
       StrUtil.GetTrimmed (lit "  ab c  ") (lit " ") = Ok r
       /\ StrUtil.GetTrimmed r (lit " ") = Ok r.
Proof.
  split; [vm_compute; reflexivity|].
  apply (GetTrimmed_idempotent (lit "  ab c  ") (lit " ")).
  vm_compute; reflexivity.
Defined.

(** C7: whole-string case conversion is idempotent:
    [GetUpper(GetUpper(s)) == GetUpper(s)], and likewise for
    [GetLower]. *)
Theorem case_conversion_idempotent (str : strT) :
  StrUtil.GetUpper (StrUtil.GetUpper str) = StrUtil.GetUpper str
  /\ StrUtil.GetLower (StrUtil.GetLower str) = StrUtil.GetLower str.
Proof.
  unfold StrUtil.GetUpper, StrUtil.GetLower, StrUtil.ToUpper, StrUtil.ToLower.
  rewrite !transform_map, !map_map. split; apply map_ext; intros c.
  - apply toupper_idempotent.
  - apply tolower_idempotent.
Qed.

(** C8: [operator==] on two string lists returns [true] exactly when
    they have the same number of elements and corresponding elements
    are equal, in order. Two lists built from the same elements in the
    same order are equal; two lists that hold the same strings in a
    different order are not. *)
Theorem StrList_equal_is_elementwise (lhs rhs : StrList.StrListT)
    (elems : list strT) :
  (exists b : bool,
      StrList.equal lhs rhs = Ok b
      /\ (b = true <->
          StrList.size lhs = StrList.size rhs
          /\ (forall (i : nat) (x y : strT),
                 StrList.list_ lhs !! i = Some x ->
                 StrList.list_ rhs !! i = Some y -> x = y)))
  /\ StrList.equal (built_from elems) (built_from elems) = Ok true
  /\ (Permutation (StrList.list_ lhs) (StrList.list_ rhs) ->
      StrList.list_ lhs <> StrList.list_ rhs ->
      StrList.equal lhs rhs = Ok false)
  /\ StrList.equal (built_from [lit "a"; lit "b"]) (built_from [lit "b"; lit "a"])
     = Ok false.
Proof.
  repeat split.
  - exists (bool_decide (StrList.list_ lhs = StrList.list_ rhs)).
    split; [apply equal_spec|].
    rewrite bool_decide_eq_true. apply list_eq_elementwise.
  - rewrite equal_spec. rewrite bool_decide_eq_true_2; reflexivity.
  - intros _ Hne. rewrite equal_spec.
    rewrite bool_decide_eq_false_2 by exact Hne. reflexivity.
Qed.

(** The string operations that can raise a fault in the embedding
    never do: [ToXmlSafe], [ToTrimmedLeading] and [ToTrimmed] return a
    string for every input. In particular the assertion of [ToTrimmed]
    cannot fail: either [find_first_not_of] finds nothing and the
    function returns before the assertion, or [find_last_not_of] finds
    a character too. The hypothesis says that the escaped string has a
    representable size. *)
Lemma fallible_string_operations_return (str trimCharset : strT) :
  (size (flat_map XmlEscapeChar str) < npos)%Z ->
  (exists r : strT, StrUtil.ToXmlSafe str = Ok r)
  /\ (exists r : strT, StrUtil.ToTrimmedLeading str trimCharset = Ok r)
  /\ (exists r : strT, StrUtil.ToTrimmed str trimCharset = Ok r)
  /\ (find_first_not_of str trimCharset = None
      \/ exists lastNot : Z, find_last_not_of str trimCharset = Some lastNot).
Proof.
  intros Hfit. repeat split.
  - eexists. apply ToXmlSafe_simultaneous, Hfit.
  - apply ToTrimmedLeading_total.
  - apply ToTrimmed_total.
  - destruct (find_first_not_of str trimCharset) as [k|] eqn:Hk.
    + right. destruct (find_last_after_first _ _ _ Hk) as (l & Hl & _).
      exists l. exact Hl.
    + left. reflexivity.
Qed.



(** C10: on the empty string [IsGoodFileName] is [true] in both
    wildcard modes and [ContainsWildcard] is [false], whereas
    [IsDigit], [IsNumeric], [IsAlphaNum], [IsPrintable] and
    [IsExtendedAscii] are all [false]. *)
Theorem empty_string_predicates (char_is_signed : bool) :
  StrUtil.IsGoodFileName (lit "") StrUtil.AllowWildcards_No = true
  /\ StrUtil.IsGoodFileName (lit "") StrUtil.AllowWildcards_Yes = true
  /\ StrUtil.ContainsWildcard (lit "") = false
  /\ StrUtil.IsDigit (lit "") = false
  /\ StrUtil.IsNumeric (lit "") = false
  /\ StrUtil.IsAlphaNum (lit "") = false
  /\ StrUtil.IsPrintable (lit "") = false
  /\ StrUtil.IsExtendedAscii char_is_signed (lit "") = false.
Proof. repeat split; reflexivity. Qed.

(** * Further properties of the code *)

(** ** Trimming at the end, and how the three trims compose *)

Section more_trimming.

Variable trimCharset : strT.

Lemma find_last_not_of_bound (str : strT) (l : Z) :
  find_last_not_of str trimCharset = Some l -> (0 <= l < size str)%Z.
Proof.
  unfold find_last_not_of. rewrite last_not_of_below_Some.
  intros (i & x & -> & Hi & _). unfold size. lia.
Qed.

Lemma find_last_not_of_all (str : strT) :
  forallb (in_charset trimCharset) str = true ->
  find_last_not_of str trimCharset = None.
Proof.
  intros Hall. unfold find_last_not_of. apply last_not_of_below_None.
  intros j y _ Hy. rewrite forallb_lookup in Hall. exact (Hall j y Hy).
Qed.

Lemma ToTrimmedTrailing_all (str : strT) :
  forallb (in_charset trimCharset) str = true ->
  StrUtil.ToTrimmedTrailing str trimCharset = [].
Proof.
  intros Hall. unfold StrUtil.ToTrimmedTrailing.
  rewrite (find_last_not_of_all _ Hall). reflexivity.
Qed.

Lemma ToTrimmedTrailing_some (str : strT) (l : Z) :
  (size str < npos)%Z ->
  find_last_not_of str trimCharset = Some l ->
  StrUtil.ToTrimmedTrailing str trimCharset = take (Z.to_nat (l + 1)) str.
Proof.
  intros Hfit Hl. unfold StrUtil.ToTrimmedTrailing. rewrite Hl.
  pose proof (find_last_not_of_bound _ _ Hl) as Hb.
  unfold resize, size_t, size, npos in *. rewrite Z.mod_small by lia.
  replace (Z.to_nat (l + 1) - length str) with 0 by lia.
  simpl. apply app_nil_r.
Qed.

Lemma find_last_not_of_drop (str : strT) (k l : nat) :
  find_last_not_of str trimCharset = Some (Z.of_nat l) -> k <= l ->
  find_last_not_of (drop k str) trimCharset = Some (Z.of_nat (l - k)).
Proof.
  unfold find_last_not_of. rewrite !last_not_of_below_Some.
  intros (i & x & Hil & Hi & Hx & Hout & Hpost) Hkl.
  apply Nat2Z.inj in Hil. subst i.
  exists (l - k), x. rewrite length_drop, lookup_drop.
  replace (k + (l - k)) with l by lia.
  repeat split; [lia | exact Hx | exact Hout |].
  intros j y Hj Hy. rewrite lookup_drop in Hy.
  apply (Hpost (k + j) y); [lia | exact Hy].
Qed.

Lemma find_first_not_of_take (str : strT) (k n : nat) :
  find_first_not_of str trimCharset = Some (Z.of_nat k) -> k < n ->
  find_first_not_of (take n str) trimCharset = Some (Z.of_nat k).
Proof.
  unfold find_first_not_of. rewrite !first_not_of_from_Some.
  intros (i & x & Hik & Hx & Hout & Hpre) Hkn.
  assert (i = k) by lia. subst i.
  exists k, x. rewrite lookup_take_lt by lia.
  repeat split; [exact Hx | exact Hout |].
  intros j y Hj Hy. apply lookup_take_Some in Hy. destruct Hy as [Hy _].
  exact (Hpre j y Hj Hy).
Qed.

Lemma forallb_in_charset_take (str : strT) (i : nat) :
  (forall j y, j < i -> str !! j = Some y -> in_charset trimCharset y = true) ->
  forallb (in_charset trimCharset) (take i str) = true.
Proof.
  intros Hpre. apply forallb_lookup. intros j y Hj.
  apply lookup_take_Some in Hj. destruct Hj as [Hj Hlt].
  exact (Hpre j y Hlt Hj).
Qed.

Lemma forallb_in_charset_drop (str : strT) (i : nat) :
  (forall j y, i <= j -> str !! j = Some y -> in_charset trimCharset y = true) ->
  forallb (in_charset trimCharset) (drop i str) = true.
Proof.
  intros Hpost. apply forallb_lookup. intros j y Hj.
  rewrite lookup_drop in Hj. apply (Hpost (i + j) y); [lia | exact Hj].
Qed.

End more_trimming.

(** X1: [GetTrimmedTrailing] splits the string into the result and a
    removed trailing run: every removed character belongs to the trim
    set, the result does not end with a character of the set, nothing
    is padded, and the result is empty exactly when every character
    belongs to the set. *)
Theorem GetTrimmedTrailing_removes_maximal_run (str trimCharset : strT) :
  (size str < npos)%Z ->
  exists rest removed : strT,
    str = rest ++ removed
    /\ StrUtil.GetTrimmedTrailing str trimCharset = rest
    /\ forallb (in_charset trimCharset) removed = true
    /\ match last rest with
       | None => True
       | Some c => in_charset trimCharset c = false
       end
    /\ (if forallb (in_charset trimCharset) str then rest = [] else rest <> []).
Proof.
  intros Hfit. unfold StrUtil.GetTrimmedTrailing.
  destruct (find_last_not_of str trimCharset) as [l|] eqn:Hl.
  - rewrite (ToTrimmedTrailing_some _ _ _ Hfit Hl).
    pose proof (find_last_not_of_bound _ _ _ Hl) as Hb.
    unfold find_last_not_of in Hl. apply last_not_of_below_Some in Hl.
    destruct Hl as (i & x & -> & Hi & Hx & Hout & Hpost).
    replace (Z.to_nat (Z.of_nat i + 1)) with (S i) by lia.
    exists (take (S i) str), (drop (S i) str).
    assert (Hlast : last (take (S i) str) = Some x).
    { rewrite last_lookup, length_take.
      replace (pred (S i `min` length str)) with i by lia.
      rewrite lookup_take_lt by lia. exact Hx. }
    repeat split.
    + symmetry. apply take_drop.
    + apply forallb_in_charset_drop. intros j y Hj Hy.
      apply (Hpost j y); [|exact Hy].
      apply lookup_lt_Some in Hy. lia.
    + rewrite Hlast. exact Hout.
    + destruct (forallb (in_charset trimCharset) str) eqn:Hall.
      * rewrite forallb_lookup in Hall. specialize (Hall i x Hx). congruence.
      * intros Hnil. rewrite Hnil in Hlast. discriminate.
  - unfold find_last_not_of in Hl. rewrite last_not_of_below_None in Hl.
    assert (Hall : forallb (in_charset trimCharset) str = true).
    { apply forallb_lookup. intros j y Hy.
      exact (Hl j y (lookup_lt_Some _ _ _ Hy) Hy). }
    rewrite (ToTrimmedTrailing_all _ _ Hall), Hall.
    exists [], str. repeat split; try reflexivity. exact Hall.
Qed.

Lemma GetTrimmedTrailing_removes_maximal_run_witness :
  (size (lit "  ab c  ") < npos)%Z
  /\ exists rest removed : strT,
       lit "  ab c  " = rest ++ removed
       /\ StrUtil.GetTrimmedTrailing (lit "  ab c  ") (lit " ") = rest
       /\ forallb (in_charset (lit " ")) removed = true
       /\ match last rest with
          | None => True
          | Some c => in_charset (lit " ") c = false
          end
       /\ (if forallb (in_charset (lit " ")) (lit "  ab c  ")
           then rest = [] else rest <> []).
Proof.
  split; [vm_compute; reflexivity|].
  apply (GetTrimmedTrailing_removes_maximal_run (lit "  ab c  ") (lit " ")).
  vm_compute; reflexivity.
Defined.

Section trim_fixed_points.

Variable trimCharset : strT.

Lemma find_first_not_of_head (r : strT) (x : C) :
  r !! 0 = Some x -> in_charset trimCharset x = false ->
  find_first_not_of r trimCharset = Some 0%Z.
Proof.
  intros Hx Hout. unfold find_first_not_of. apply first_not_of_from_Some.
  exists 0, x. repeat split; [exact Hx | exact Hout | intros j ? Hj; lia].
Qed.

Lemma find_last_not_of_last (r : strT) (y : C) :
  last r = Some y -> in_charset trimCharset y = false ->
  find_last_not_of r trimCharset = Some (Z.of_nat (length r - 1)).
Proof.
  intros Hy Hout. rewrite last_lookup in Hy.
  pose proof (lookup_lt_Some _ _ _ Hy) as Hlt.
  unfold find_last_not_of. apply last_not_of_below_Some.
  exists (length r - 1), y.
  replace (length r - 1) with (pred (length r)) by lia.
  repeat split; [lia | exact Hy | exact Hout | intros j ? Hj; lia].
Qed.

Lemma ToTrimmedLeading_fixed (r : strT) :
  (size r < npos)%Z ->
  (forall x, r !! 0 = Some x -> in_charset trimCharset x = false) ->
  StrUtil.ToTrimmedLeading r trimCharset = Ok r.
Proof.
  intros Hfit Hhead. destruct r as [|x r]; [reflexivity|].
  rewrite (ToTrimmedLeading_some _ _ 0 Hfit).
  - reflexivity.
  - apply (find_first_not_of_head _ x); [reflexivity | apply Hhead; reflexivity].
Qed.

Lemma ToTrimmedTrailing_fixed (r : strT) :
  (size r < npos)%Z ->
  (forall y, last r = Some y -> in_charset trimCharset y = false) ->
  StrUtil.ToTrimmedTrailing r trimCharset = r.
Proof.
  intros Hfit Hlast. destruct (last r) as [y|] eqn:Hy.
  - rewrite (ToTrimmedTrailing_some _ _ _ Hfit
               (find_last_not_of_last _ _ Hy (Hlast y eq_refl))).
    rewrite last_lookup in Hy. apply lookup_lt_Some in Hy.
    apply take_ge. lia.
  - apply last_None in Hy. subst r. reflexivity.
Qed.

Lemma tight_iff (r : strT) :
  tight trimCharset r <->
  exists x y : C,
    r !! 0 = Some x /\ in_charset trimCharset x = false
    /\ last r = Some y /\ in_charset trimCharset y = false.
Proof.
  unfold tight. split; intros (x & y & Hx & Hxo & Hy & Hyo); exists x, y;
    repeat split; try assumption.
  - rewrite last_lookup. replace (pred (length r)) with (length r - 1) by lia.
    exact Hy.
  - rewrite last_lookup in Hy.
    replace (pred (length r)) with (length r - 1) in Hy by lia. exact Hy.
Qed.

End trim_fixed_points.

(** X2: [GetTrimmed] cuts the string into a leading run, the result
    and a trailing run. Both runs consist of characters of the trim
    set; the result is empty when every character belongs to the set,
    and otherwise starts and ends with a character outside it. *)
Theorem GetTrimmed_splits_in_three (str trimCharset : strT) :
  (size str < npos)%Z ->
  exists lead r trail : strT,
    str = lead ++ r ++ trail
    /\ StrUtil.GetTrimmed str trimCharset = Ok r
    /\ forallb (in_charset trimCharset) lead = true
    /\ forallb (in_charset trimCharset) trail = true
    /\ (if forallb (in_charset trimCharset) str then r = []
        else tight trimCharset r).
Proof.
  intros Hfit. unfold StrUtil.GetTrimmed.
  destruct (find_first_not_of str trimCharset) as [k|] eqn:Hk.
  - destruct (find_last_after_first _ _ _ Hk) as (l & Hl & Hb).
    pose proof (find_first_not_of_bound _ _ _ Hk) as Hb'.
    rewrite (ToTrimmed_some _ _ _ _ Hfit Hk Hl).
    pose proof (ToTrimmed_tight_result _ _ _ _ Hk Hl) as Htight.
    exists (take (Z.to_nat k) str),
           (take (Z.to_nat (l - k + 1)) (drop (Z.to_nat k) str)),
           (drop (Z.to_nat (l + 1)) str).
    unfold find_first_not_of in Hk. apply first_not_of_from_Some in Hk.
    destruct Hk as (i & x & -> & Hx & Hout & Hpre).
    unfold find_last_not_of in Hl. apply last_not_of_below_Some in Hl.
    destruct Hl as (i' & y & -> & Hi' & Hy & Hyout & Hpost).
    replace (Z.to_nat (0 + Z.of_nat i)) with i in * by lia.
    replace (Z.to_nat (Z.of_nat i' + 1)) with (i + (i' - i + 1)) by lia.
    replace (Z.to_nat (Z.of_nat i' - (0 + Z.of_nat i) + 1))
      with (i' - i + 1) in * by lia.
    repeat split.
    + rewrite <- drop_drop, take_drop, take_drop. reflexivity.
    + apply forallb_in_charset_take, Hpre.
    + apply forallb_in_charset_drop. intros j z Hj Hz.
      apply (Hpost j z); [|exact Hz]. apply lookup_lt_Some in Hz. lia.
    + destruct (forallb (in_charset trimCharset) str) eqn:Hall; [|exact Htight].
      rewrite forallb_lookup in Hall. specialize (Hall i x Hx). congruence.
  - unfold find_first_not_of in Hk. apply first_not_of_from_None in Hk.
    rewrite (ToTrimmed_all _ _ Hk), Hk.
    exists str, [], []. rewrite !app_nil_r. repeat split; try reflexivity.
    exact Hk.
Qed.

Lemma GetTrimmed_splits_in_three_witness :
  (size (lit "--a-b--") < npos)%Z
  /\ exists lead r trail : strT,
       lit "--a-b--" = lead ++ r ++ trail
       /\ StrUtil.GetTrimmed (lit "--a-b--") (lit "-") = Ok r
       /\ forallb (in_charset (lit "-")) lead = true
       /\ forallb (in_charset (lit "-")) trail = true
       /\ (if forallb (in_charset (lit "-")) (lit "--a-b--") then r = []
           else tight (lit "-") r).
Proof.
  split; [vm_compute; reflexivity|].
  apply (GetTrimmed_splits_in_three (lit "--a-b--") (lit "-")).
  vm_compute; reflexivity.
Defined.

(** X3: trimming both ends is trimming the front and then the end, and
    also trimming the end and then the front. *)
Theorem GetTrimmed_is_leading_then_trailing (str trimCharset : strT) :
  (size str < npos)%Z ->
  exists lead : strT,
    StrUtil.GetTrimmedLeading str trimCharset = Ok lead
    /\ StrUtil.GetTrimmed str trimCharset
       = Ok (StrUtil.GetTrimmedTrailing lead trimCharset)
    /\ StrUtil.GetTrimmedLeading
         (StrUtil.GetTrimmedTrailing str trimCharset) trimCharset
       = StrUtil.GetTrimmed str trimCharset.
Proof.
  intros Hfit.
  unfold StrUtil.GetTrimmed, StrUtil.GetTrimmedLeading, StrUtil.GetTrimmedTrailing.
  destruct (find_first_not_of str trimCharset) as [k|] eqn:Hk.
  - destruct (find_last_after_first _ _ _ Hk) as (l & Hl & Hb).
    pose proof (find_first_not_of_bound _ _ _ Hk) as Hb'.
    rewrite (ToTrimmed_some _ _ _ _ Hfit Hk Hl).
    rewrite (ToTrimmedLeading_some _ _ _ Hfit Hk).
    rewrite (ToTrimmedTrailing_some _ _ _ Hfit Hl).
    rewrite <- (Z2Nat.id k) in Hk by lia.
    rewrite <- (Z2Nat.id l) in Hl by lia.
    exists (drop (Z.to_nat k) str). unfold size in *. repeat split.
    + f_equal. symmetry.
      rewrite (ToTrimmedTrailing_some _ _ (Z.of_nat (Z.to_nat l - Z.to_nat k))).
      * f_equal. lia.
      * unfold size. rewrite length_drop. lia.
      * apply find_last_not_of_drop; [exact Hl | lia].
    + rewrite (ToTrimmedLeading_some _ _ (Z.of_nat (Z.to_nat k))).
      * f_equal. rewrite Nat2Z.id, take_drop_commute. f_equal. f_equal. lia.
      * unfold size. rewrite length_take. lia.
      * apply find_first_not_of_take; [exact Hk | lia].
  - unfold find_first_not_of in Hk. apply first_not_of_from_None in Hk.
    rewrite (ToTrimmed_all _ _ Hk), (ToTrimmedLeading_all _ _ Hk),
      (ToTrimmedTrailing_all _ _ Hk).
    exists []. repeat split; reflexivity.
Qed.

Lemma GetTrimmed_is_leading_then_trailing_witness :
  (size (lit "--a-b--") < npos)%Z
  /\ exists lead : strT,
       StrUtil.GetTrimmedLeading (lit "--a-b--") (lit "-") = Ok lead
       /\ StrUtil.GetTrimmed (lit "--a-b--") (lit "-")
          = Ok (StrUtil.GetTrimmedTrailing lead (lit "-"))
       /\ StrUtil.GetTrimmedLeading
            (StrUtil.GetTrimmedTrailing (lit "--a-b--") (lit "-")) (lit "-")
          = StrUtil.GetTrimmed (lit "--a-b--") (lit "-").
Proof.
  split; [vm_compute; reflexivity|].
  apply (GetTrimmed_is_leading_then_trailing (lit "--a-b--") (lit "-")).
  vm_compute; reflexivity.
Defined.

Lemma ToTrimmed_fixed (trimCharset r : strT) :
  (size r < npos)%Z ->
  (forall x, head r = Some x -> in_charset trimCharset x = false) ->
  (forall y, last r = Some y -> in_charset trimCharset y = false) ->
  StrUtil.ToTrimmed r trimCharset = Ok r.
Proof.
  intros Hfit Hhead Hlast. destruct r as [|c r]; [reflexivity|].
  apply ToTrimmed_tight_fixed; [exact Hfit|]. apply tight_iff.
  destruct (last (c :: r)) as [y|] eqn:Hy.
  - exists c, y. repeat split; [apply Hhead; reflexivity | apply Hlast; reflexivity].
  - apply last_None in Hy. discriminate.
Qed.

Lemma ToTrimmed_result_ends (trimCharset str r : strT) :
  (size str < npos)%Z ->
  StrUtil.ToTrimmed str trimCharset = Ok r ->
  (forall x, head r = Some x -> in_charset trimCharset x = false)
  /\ (forall y, last r = Some y -> in_charset trimCharset y = false).
Proof.
  intros Hfit.
  destruct (find_first_not_of str trimCharset) as [k|] eqn:Hk.
  - destruct (find_last_after_first _ _ _ Hk) as (l & Hl & Hb).
    pose proof (ToTrimmed_tight_result _ _ _ _ Hk Hl) as Htight.
    rewrite (ToTrimmed_some _ _ _ _ Hfit Hk Hl). intros [= <-].
    apply tight_iff in Htight.
    destruct Htight as (x & y & Hx & Hxo & Hy & Hyo).
    rewrite <- head_lookup in Hx.
    split; intros z Hz; congruence.
  - unfold find_first_not_of in Hk. apply first_not_of_from_None in Hk.
    rewrite (ToTrimmed_all _ _ Hk). intros [= <-]. split; intros ? [=].
Qed.

(** X4: with an empty trim set nothing is trimmed: all three
    operations return the string unchanged. *)
Theorem trimming_with_empty_set_is_identity (str : strT) :
  (size str < npos)%Z ->
  StrUtil.GetTrimmedLeading str [] = Ok str
  /\ StrUtil.GetTrimmedTrailing str [] = str
  /\ StrUtil.GetTrimmed str [] = Ok str.
Proof.
  intros Hfit. repeat split.
  - apply ToTrimmedLeading_fixed; [exact Hfit | reflexivity].
  - apply ToTrimmedTrailing_fixed; [exact Hfit | reflexivity].
  - apply ToTrimmed_fixed; [exact Hfit | reflexivity | reflexivity].
Qed.

Lemma trimming_with_empty_set_is_identity_witness :
  (size (lit "  ab c  ") < npos)%Z
  /\ StrUtil.GetTrimmedLeading (lit "  ab c  ") [] = Ok (lit "  ab c  ")
  /\ StrUtil.GetTrimmedTrailing (lit "  ab c  ") [] = lit "  ab c  "
  /\ StrUtil.GetTrimmed (lit "  ab c  ") [] = Ok (lit "  ab c  ").
Proof.
  split; [vm_compute; reflexivity|].
  apply (trimming_with_empty_set_is_identity (lit "  ab c  ")).
  vm_compute; reflexivity.
Defined.

(** X5: [GetTrimmed] returns its argument unchanged exactly when the
    string neither starts nor ends with a character of the trim set
    (the empty string included). *)
Theorem GetTrimmed_fixed_points (str trimCharset : strT) :
  (size str < npos)%Z ->
  StrUtil.GetTrimmed str trimCharset = Ok str
  <-> (forall x, head str = Some x -> in_charset trimCharset x = false)
      /\ (forall y, last str = Some y -> in_charset trimCharset y = false).
Proof.
  intros Hfit. unfold StrUtil.GetTrimmed. split.
  - apply ToTrimmed_result_ends, Hfit.
  - intros [Hhead Hlast]. apply ToTrimmed_fixed; assumption.
Qed.

Lemma GetTrimmed_fixed_points_witness :
  (size (lit "ab c") < npos)%Z
  /\ (StrUtil.GetTrimmed (lit "ab c") (lit " ") = Ok (lit "ab c")
      <-> (forall x, head (lit "ab c") = Some x -> in_charset (lit " ") x = false)
          /\ (forall y, last (lit "ab c") = Some y ->
                        in_charset (lit " ") y = false)).
Proof.
  split; [vm_compute; reflexivity|].
  apply (GetTrimmed_fixed_points (lit "ab c") (lit " ")).
  vm_compute; reflexivity.
Defined.

(** X6: trimming the front twice is trimming it once, and likewise
    for the end. *)
Theorem one_sided_trims_idempotent (str trimCharset : strT) :
  (size str < npos)%Z ->
  (exists r : strT,
      StrUtil.GetTrimmedLeading str trimCharset = Ok r
      /\ StrUtil.GetTrimmedLeading r trimCharset = Ok r)
  /\ StrUtil.GetTrimmedTrailing
       (StrUtil.GetTrimmedTrailing str trimCharset) trimCharset
     = StrUtil.GetTrimmedTrailing str trimCharset.
Proof.
  intros Hfit.
  unfold StrUtil.GetTrimmedLeading, StrUtil.GetTrimmedTrailing. split.
  - destruct (find_first_not_of str trimCharset) as [k|] eqn:Hk.
    + pose proof (find_first_not_of_bound _ _ _ Hk) as Hb.
      rewrite (ToTrimmedLeading_some _ _ _ Hfit Hk).
      eexists. split; [reflexivity|].
      unfold find_first_not_of in Hk. apply first_not_of_from_Some in Hk.
      destruct Hk as (i & x & -> & Hx & Hout & _).
      apply ToTrimmedLeading_fixed.
      * unfold size in *. rewrite length_drop. lia.
      * intros z Hz. rewrite lookup_drop in Hz.
        replace (Z.to_nat (0 + Z.of_nat i) + 0) with i in Hz by lia.
        congruence.
    + unfold find_first_not_of in Hk. apply first_not_of_from_None in Hk.
      rewrite (ToTrimmedLeading_all _ _ Hk). exists []. split; reflexivity.
  - destruct (find_last_not_of str trimCharset) as [l|] eqn:Hl.
    + pose proof (find_last_not_of_bound _ _ _ Hl) as Hb.
      rewrite (ToTrimmedTrailing_some _ _ _ Hfit Hl).
      unfold find_last_not_of in Hl. apply last_not_of_below_Some in Hl.
      destruct Hl as (i & y & -> & Hi & Hy & Hout & _).
      apply ToTrimmedTrailing_fixed.
      * unfold size in *. rewrite length_take. lia.
      * intros z Hz. rewrite last_lookup, length_take in Hz.
        rewrite lookup_take_lt in Hz by lia.
        replace (pred (Z.to_nat (Z.of_nat i + 1) `min` length str))
          with i in Hz by lia.
        congruence.
    + assert (Hnil : StrUtil.ToTrimmedTrailing str trimCharset = []).
      { unfold StrUtil.ToTrimmedTrailing. rewrite Hl. reflexivity. }
      rewrite Hnil. reflexivity.
Qed.

Lemma one_sided_trims_idempotent_witness :
  (size (lit "  ab c  ") < npos)%Z
  /\ (exists r : strT,
         StrUtil.GetTrimmedLeading (lit "  ab c  ") (lit " ") = Ok r
         /\ StrUtil.GetTrimmedLeading r (lit " ") = Ok r)
  /\ StrUtil.GetTrimmedTrailing
       (StrUtil.GetTrimmedTrailing (lit "  ab c  ") (lit " ")) (lit " ")
     = StrUtil.GetTrimmedTrailing (lit "  ab c  ") (lit " ").
Proof.
  split; [vm_compute; reflexivity|].
  apply (one_sided_trims_idempotent (lit "  ab c  ") (lit " ")).
  vm_compute; reflexivity.
Defined.

(** ** File names: sanitising against validating *)

Lemma good_after_converting_wildcards (c : C) :
  CharUtil.IsGoodFileChar (CharUtil.ToGoodFileCharConvertWildcards c) = true.
Proof. each_char c; reflexivity. Qed.

Lemma good_with_wildcards_after_plain (c : C) :
  CharUtil.IsGoodFileCharWildcardsOK (CharUtil.ToGoodFileChar c) = true.
Proof. each_char c; reflexivity. Qed.

Lemma plain_fixes_good_with_wildcards (c : C) :
  Ascii.eqb (CharUtil.ToGoodFileChar c) c = CharUtil.IsGoodFileCharWildcardsOK c.
Proof. each_char c; reflexivity. Qed.

Lemma converting_fixes_good (c : C) :
  Ascii.eqb (CharUtil.ToGoodFileCharConvertWildcards c) c
  = CharUtil.IsGoodFileChar c.
Proof. each_char c; reflexivity. Qed.

Lemma good_is_good_with_wildcards_and_no_wildcard (c : C) :
  CharUtil.IsGoodFileChar c
  = CharUtil.IsGoodFileCharWildcardsOK c && negb (CharUtil.IsWildcardFileChar c).
Proof. each_char c; reflexivity. Qed.

Lemma wildcard_after_plain (c : C) :
  CharUtil.IsWildcardFileChar (CharUtil.ToGoodFileChar c)
  = CharUtil.IsWildcardFileChar c.
Proof. each_char c; reflexivity. Qed.

Lemma no_wildcard_after_converting (c : C) :
  CharUtil.IsWildcardFileChar (CharUtil.ToGoodFileCharConvertWildcards c) = false.
Proof. each_char c; reflexivity. Qed.

Lemma forallb_map_compose (p : C -> bool) (f : C -> C) (l : strT) :
  forallb p (map f l) = forallb (fun c => p (f c)) l.
Proof.
  induction l as [|x l IH]; simpl; [reflexivity|]. rewrite IH. reflexivity.
Qed.

Lemma existsb_map_compose (p : C -> bool) (f : C -> C) (l : strT) :
  existsb p (map f l) = existsb (fun c => p (f c)) l.
Proof.
  induction l as [|x l IH]; simpl; [reflexivity|]. rewrite IH. reflexivity.
Qed.

Lemma forallb_const_true (p : C -> bool) (l : strT) :
  (forall c, p c = true) -> forallb p l = true.
Proof.
  intros Hp. induction l as [|x l IH]; simpl; [reflexivity|].
  rewrite Hp, IH. reflexivity.
Qed.

Lemma existsb_const_false (p : C -> bool) (l : strT) :
  (forall c, p c = false) -> existsb p l = false.
Proof.
  intros Hp. induction l as [|x l IH]; simpl; [reflexivity|].
  rewrite Hp, IH. reflexivity.
Qed.

Lemma forallb_andb (p q : C -> bool) (l : strT) :
  forallb (fun c => p c && q c) l = forallb p l && forallb q l.
Proof.
  induction l as [|x l IH]; simpl; [reflexivity|]. rewrite IH.
  destruct (p x), (q x), (forallb p l), (forallb q l); reflexivity.
Qed.

Lemma forallb_negb_existsb (p : C -> bool) (l : strT) :
  forallb (fun c => negb (p c)) l = negb (existsb p l).
Proof.
  induction l as [|x l IH]; simpl; [reflexivity|]. rewrite IH.
  destruct (p x); reflexivity.
Qed.

Lemma forallb_filter_andb (p q : C -> bool) (l : strT) :
  forallb p (List.filter q l) = forallb (fun c => implb (q c) (p c)) l.
Proof.
  induction l as [|x l IH]; simpl; [reflexivity|].
  destruct (q x); simpl; rewrite IH; reflexivity.
Qed.

Lemma filter_all (q : C -> bool) (l : strT) :
  forallb q l = true -> List.filter q l = l.
Proof.
  induction l as [|x l IH]; simpl; [reflexivity|].
  rewrite andb_true_iff. intros [Hx Hl]. rewrite Hx, IH by exact Hl.
  reflexivity.
Qed.

Lemma filter_same_length (q : C -> bool) (l : strT) :
  length (List.filter q l) = length l -> forallb q l = true.
Proof.
  induction l as [|x l IH]; simpl; [reflexivity|].
  pose proof (List.filter_length_le q l) as Hle.
  destruct (q x); simpl; [intros H; apply IH; lia | lia].
Qed.

Lemma map_fixed_iff (f : C -> C) (l : strT) :
  map f l = l <-> forallb (fun c => Ascii.eqb (f c) c) l = true.
Proof.
  induction l as [|x l IH]; simpl; [split; reflexivity|].
  rewrite andb_true_iff, <- IH, Ascii.eqb_eq. split.
  - intros [= Hx Hl]. split; assumption.
  - intros [Hx Hl]. rewrite Hx, Hl. reflexivity.
Qed.

Lemma ToGoodFileName_Remove_eq (str : strT) :
  StrUtil.ToGoodFileName str StrUtil.ConvertWildcards_Remove
  = List.filter (keep CharUtil.IsWildcardFileChar)
      (map CharUtil.ToGoodFileChar str).
Proof.
  unfold StrUtil.ToGoodFileName. rewrite transform_map.
  apply erase_remove_if.
Qed.

Lemma good_name_fixed (str : strT) (mode : StrUtil.ConvertWildcards) :
  StrUtil.IsGoodFileName str StrUtil.AllowWildcards_No = true ->
  StrUtil.ToGoodFileName str mode = str.
Proof.
  unfold StrUtil.IsGoodFileName, ranges.all_of. intros Hgood.
  rewrite (forallb_pointwise _ _ _ good_is_good_with_wildcards_and_no_wildcard),
    forallb_andb, andb_true_iff in Hgood.
  destruct Hgood as [Hwo Hnw].
  assert (Hplain : map CharUtil.ToGoodFileChar str = str).
  { apply map_fixed_iff.
    rewrite (forallb_pointwise _ _ _ plain_fixes_good_with_wildcards).
    exact Hwo. }
  destruct mode.
  - unfold StrUtil.ToGoodFileName. rewrite transform_map. exact Hplain.
  - unfold StrUtil.ToGoodFileName. rewrite transform_map.
    apply map_fixed_iff.
    rewrite (forallb_pointwise _ _ _ converting_fixes_good),
      (forallb_pointwise _ _ _ good_is_good_with_wildcards_and_no_wildcard),
      forallb_andb, Hwo, Hnw.
    reflexivity.
  - rewrite ToGoodFileName_Remove_eq, Hplain. apply filter_all. exact Hnw.
Qed.

Lemma sanitised_name_is_good (str : strT) :
  StrUtil.IsGoodFileName
    (StrUtil.ToGoodFileName str StrUtil.ConvertWildcards_Yes)
    StrUtil.AllowWildcards_No = true
  /\ StrUtil.IsGoodFileName
       (StrUtil.ToGoodFileName str StrUtil.ConvertWildcards_Remove)
       StrUtil.AllowWildcards_No = true
  /\ StrUtil.IsGoodFileName
       (StrUtil.ToGoodFileName str StrUtil.ConvertWildcards_No)
       StrUtil.AllowWildcards_Yes = true.
Proof.
  unfold StrUtil.IsGoodFileName, ranges.all_of. repeat split.
  - unfold StrUtil.ToGoodFileName. rewrite transform_map, forallb_map_compose.
    apply forallb_const_true, good_after_converting_wildcards.
  - rewrite ToGoodFileName_Remove_eq, forallb_filter_andb, forallb_map_compose.
    apply forallb_const_true. intros c. unfold keep.
    rewrite good_is_good_with_wildcards_and_no_wildcard,
      good_with_wildcards_after_plain.
    destruct (CharUtil.IsWildcardFileChar (CharUtil.ToGoodFileChar c));
      reflexivity.
  - unfold StrUtil.ToGoodFileName. rewrite transform_map, forallb_map_compose.
    apply forallb_const_true, good_with_wildcards_after_plain.
Qed.

Lemma good_with_wildcards_fixed (str : strT) :
  StrUtil.IsGoodFileName str StrUtil.AllowWildcards_Yes = true <->
  StrUtil.ToGoodFileName str StrUtil.ConvertWildcards_No = str.
Proof.
  unfold StrUtil.IsGoodFileName, StrUtil.ToGoodFileName, ranges.all_of.
  rewrite transform_map, map_fixed_iff.
  rewrite (forallb_pointwise _ _ _ plain_fixes_good_with_wildcards).
  reflexivity.
Qed.

(** X7: a sanitised name passes the matching validator: after
    converting or removing wildcards the name is good with wildcards
    disallowed, and after the plain conversion it is good with
    wildcards allowed. *)
Theorem GetGoodFileName_passes_IsGoodFileName (str : strT) :
  StrUtil.IsGoodFileName
    (StrUtil.GetGoodFileName str StrUtil.ConvertWildcards_Yes)
    StrUtil.AllowWildcards_No = true
  /\ StrUtil.IsGoodFileName
       (StrUtil.GetGoodFileName str StrUtil.ConvertWildcards_Remove)
       StrUtil.AllowWildcards_No = true
  /\ StrUtil.IsGoodFileName
       (StrUtil.GetGoodFileName str StrUtil.ConvertWildcards_No)
       StrUtil.AllowWildcards_Yes = true.
Proof. exact (sanitised_name_is_good str). Qed.

(** X8: sanitising changes a name exactly when the validator rejects
    it: the plain conversion leaves [str] unchanged iff [str] is good
    with wildcards allowed; converting or removing wildcards leaves it
    unchanged iff it is good with wildcards disallowed. *)
Theorem GetGoodFileName_unchanged_iff_good (str : strT) :
  (StrUtil.GetGoodFileName str StrUtil.ConvertWildcards_No = str
   <-> StrUtil.IsGoodFileName str StrUtil.AllowWildcards_Yes = true)
  /\ (StrUtil.GetGoodFileName str StrUtil.ConvertWildcards_Yes = str
      <-> StrUtil.IsGoodFileName str StrUtil.AllowWildcards_No = true)
  /\ (StrUtil.GetGoodFileName str StrUtil.ConvertWildcards_Remove = str
      <-> StrUtil.IsGoodFileName str StrUtil.AllowWildcards_No = true).
Proof.
  unfold StrUtil.GetGoodFileName.
  destruct (sanitised_name_is_good str) as (Hyes & Hremove & Hno).
  repeat split.
  - apply good_with_wildcards_fixed.
  - apply good_with_wildcards_fixed.
  - intros Heq. rewrite Heq in Hyes. exact Hyes.
  - apply good_name_fixed.
  - intros Heq. rewrite Heq in Hremove. exact Hremove.
  - apply good_name_fixed.
Qed.

(** X9: sanitising is idempotent in each of the three modes. *)
Theorem GetGoodFileName_idempotent (str : strT) (mode : StrUtil.ConvertWildcards) :
  StrUtil.GetGoodFileName (StrUtil.GetGoodFileName str mode) mode
  = StrUtil.GetGoodFileName str mode.
Proof.
  unfold StrUtil.GetGoodFileName.
  destruct (sanitised_name_is_good str) as (Hyes & Hremove & Hno).
  destruct mode.
  - apply good_with_wildcards_fixed, Hno.
  - apply good_name_fixed, Hyes.
  - apply good_name_fixed, Hremove.
Qed.

(** X10: a name is good with wildcards disallowed exactly when it is
    good with wildcards allowed and contains no wildcard. *)
Theorem IsGoodFileName_No_is_Yes_without_wildcards (str : strT) :
  StrUtil.IsGoodFileName str StrUtil.AllowWildcards_No
  = StrUtil.IsGoodFileName str StrUtil.AllowWildcards_Yes
    && negb (StrUtil.ContainsWildcard str).
Proof.
  unfold StrUtil.IsGoodFileName, StrUtil.ContainsWildcard,
    ranges.all_of, ranges.any_of.
  rewrite (forallb_pointwise _ _ _ good_is_good_with_wildcards_and_no_wildcard),
    forallb_andb, forallb_negb_existsb.
  reflexivity.
Qed.

(** X11: the plain conversion and the wildcard conversion keep the
    length of the name, and removal shortens it by the number of
    wildcards; after converting or removing wildcards none is left,
    while the plain conversion neither adds nor removes one. *)
Theorem GetGoodFileName_length_and_wildcards (str : strT) :
  length (StrUtil.GetGoodFileName str StrUtil.ConvertWildcards_No) = length str
  /\ length (StrUtil.GetGoodFileName str StrUtil.ConvertWildcards_Yes)
     = length str
  /\ length (StrUtil.GetGoodFileName str StrUtil.ConvertWildcards_Remove)
     + length (List.filter CharUtil.IsWildcardFileChar str)
     = length str
  /\ StrUtil.ContainsWildcard
       (StrUtil.GetGoodFileName str StrUtil.ConvertWildcards_Yes) = false
  /\ StrUtil.ContainsWildcard
       (StrUtil.GetGoodFileName str StrUtil.ConvertWildcards_Remove) = false
  /\ StrUtil.ContainsWildcard
       (StrUtil.GetGoodFileName str StrUtil.ConvertWildcards_No)
     = StrUtil.ContainsWildcard str.
Proof.
  unfold StrUtil.GetGoodFileName, StrUtil.ContainsWildcard, ranges.any_of.
  rewrite ToGoodFileName_Remove_eq. unfold StrUtil.ToGoodFileName.
  rewrite !transform_map. repeat split.
  - apply length_map.
  - apply length_map.
  - induction str as [|c str IH]; [reflexivity|].
    simpl. unfold keep at 1. rewrite wildcard_after_plain.
    destruct (CharUtil.IsWildcardFileChar c); simpl; lia.
  - rewrite existsb_map_compose.
    apply existsb_const_false, no_wildcard_after_converting.
  - induction str as [|c str IH]; [reflexivity|].
    simpl. unfold keep at 1.
    destruct (CharUtil.IsWildcardFileChar (CharUtil.ToGoodFileChar c)) eqn:Hw;
      simpl; [exact IH | rewrite Hw; exact IH].
  - rewrite existsb_map_compose. induction str as [|c str IH]; [reflexivity|].
    simpl. rewrite wildcard_after_plain, IH. reflexivity.
Qed.

(** ** Case conversion *)

Lemma toupper_tolower (c : C) :
  CharUtil.ToUpper (CharUtil.ToLower c) = CharUtil.ToUpper c.
Proof. each_char c; reflexivity. Qed.

Lemma tolower_toupper (c : C) :
  CharUtil.ToLower (CharUtil.ToUpper c) = CharUtil.ToLower c.
Proof. each_char c; reflexivity. Qed.

Lemma no_lower_after_toupper (c : C) :
  CharUtil.IsLower (CharUtil.ToUpper c) = false.
Proof. each_char c; reflexivity. Qed.

Lemma no_upper_after_tolower (c : C) :
  CharUtil.IsUpper (CharUtil.ToLower c) = false.
Proof. each_char c; reflexivity. Qed.

Lemma toupper_fixes_non_lower (c : C) :
  Ascii.eqb (CharUtil.ToUpper c) c = negb (CharUtil.IsLower c).
Proof. each_char c; reflexivity. Qed.

Lemma tolower_fixes_non_upper (c : C) :
  Ascii.eqb (CharUtil.ToLower c) c = negb (CharUtil.IsUpper c).
Proof. each_char c; reflexivity. Qed.

(** X12: converting to upper case forgets an earlier conversion to
    lower case and the other way round, and both conversions keep the
    length of the string. *)
Theorem case_conversions_absorb (str : strT) :
  StrUtil.GetUpper (StrUtil.GetLower str) = StrUtil.GetUpper str
  /\ StrUtil.GetLower (StrUtil.GetUpper str) = StrUtil.GetLower str
  /\ length (StrUtil.GetUpper str) = length str
  /\ length (StrUtil.GetLower str) = length str.
Proof.
  unfold StrUtil.GetUpper, StrUtil.GetLower, StrUtil.ToUpper, StrUtil.ToLower.
  rewrite !transform_map, !map_map, !length_map. repeat split.
  - apply map_ext, toupper_tolower.
  - apply map_ext, tolower_toupper.
Qed.

(** X13: [GetUpper] leaves no lower-case letter and changes the string
    exactly when it holds one; [GetLower] likewise for upper-case
    letters. *)
Theorem case_conversion_removes_other_case (str : strT) :
  existsb CharUtil.IsLower (StrUtil.GetUpper str) = false
  /\ existsb CharUtil.IsUpper (StrUtil.GetLower str) = false
  /\ (StrUtil.GetUpper str = str <-> existsb CharUtil.IsLower str = false)
  /\ (StrUtil.GetLower str = str <-> existsb CharUtil.IsUpper str = false).
Proof.
  unfold StrUtil.GetUpper, StrUtil.GetLower, StrUtil.ToUpper, StrUtil.ToLower.
  rewrite !transform_map, !existsb_map_compose, !map_fixed_iff.
  rewrite (forallb_pointwise _ _ _ toupper_fixes_non_lower),
    (forallb_pointwise _ _ _ tolower_fixes_non_upper),
    !forallb_negb_existsb, !negb_true_iff.
  repeat split; try (intros H; exact H).
  - apply existsb_const_false, no_lower_after_toupper.
  - apply existsb_const_false, no_upper_after_tolower.
Qed.

(** ** The whole-string predicates *)

Lemma forallb_impl (p q : C -> bool) (l : strT) :
  (forall c, p c = true -> q c = true) ->
  forallb p l = true -> forallb q l = true.
Proof.
  intros Hpq. induction l as [|x l IH]; simpl; [reflexivity|].
  rewrite !andb_true_iff. intros [Hx Hl]. split; auto.
Qed.

Lemma extended_ascii_is_high_bit (char_is_signed : bool) (c : C) :
  CharUtil.IsExtendedAscii char_is_signed c = (128 <=? N_of_ascii c)%N.
Proof. destruct char_is_signed; each_char c; reflexivity. Qed.

Lemma digit_char_classes (c : C) :
  CharUtil.IsDigit c = true ->
  CharUtil.IsNumeric c = true /\ CharUtil.IsAlphaNum c = true
  /\ Ascii.eqb c "-" = false.
Proof. each_char c; intros H; try discriminate H; repeat split. Qed.

Lemma alnum_char_classes (c : C) :
  CharUtil.IsAlphaNum c = true ->
  CharUtil.IsPrintable c = true /\ CharUtil.IsGoodFileChar c = true
  /\ XmlEscapeChar c = [c].
Proof. each_char c; intros H; try discriminate H; repeat split. Qed.

Lemma printable_not_extended (char_is_signed : bool) (c : C) :
  CharUtil.IsPrintable c && CharUtil.IsExtendedAscii char_is_signed c = false.
Proof. destruct char_is_signed; each_char c; reflexivity. Qed.

(** X14: [IsExtendedAscii] does not depend on whether plain [char] is
    signed: a character is extended exactly when its byte value is 128
    or more, and a string is extended when it is not empty and all of
    its bytes are. *)
Theorem IsExtendedAscii_is_signedness_independent
    (char_is_signed : bool) (c : C) (str : strT) :
  CharUtil.IsExtendedAscii char_is_signed c = (128 <=? N_of_ascii c)%N
  /\ StrUtil.IsExtendedAscii char_is_signed str
     = negb (empty str) && forallb (fun x => (128 <=? N_of_ascii x)%N) str.
Proof.
  split; [apply extended_ascii_is_high_bit|].
  unfold StrUtil.IsExtendedAscii, ranges.all_of. f_equal.
  apply forallb_pointwise, extended_ascii_is_high_bit.
Qed.

(** X15: a string of decimal digits is also numeric, alphanumeric and
    printable, and is not extended ASCII. *)
Theorem IsDigit_implies_other_predicates (char_is_signed : bool) (str : strT) :
  StrUtil.IsDigit str = true ->
  StrUtil.IsNumeric str = true
  /\ StrUtil.IsAlphaNum str = true
  /\ StrUtil.IsPrintable str = true
  /\ StrUtil.IsExtendedAscii char_is_signed str = false.
Proof.
  unfold StrUtil.IsDigit, StrUtil.IsAlphaNum, StrUtil.IsPrintable,
    StrUtil.IsExtendedAscii, ranges.all_of.
  destruct str as [|c str]; [discriminate|]. cbn [empty negb andb].
  intros Hdigit.
  assert (Halnum : forallb CharUtil.IsAlphaNum (c :: str) = true).
  { revert Hdigit. apply forallb_impl. intros x Hx.
    apply (digit_char_classes x Hx). }
  assert (Hprint : forallb CharUtil.IsPrintable (c :: str) = true).
  { revert Halnum. apply forallb_impl. intros x Hx.
    apply (alnum_char_classes x Hx). }
  repeat split; try assumption.
  - unfold StrUtil.IsNumeric, ranges.all_of.
    assert (Hc : CharUtil.IsDigit c = true).
    { simpl in Hdigit. apply andb_true_iff in Hdigit. apply Hdigit. }
    destruct (digit_char_classes c Hc) as (_ & _ & ->).
    revert Hdigit. apply forallb_impl. intros x Hx.
    apply (digit_char_classes x Hx).
  - simpl in Hprint |- *. apply andb_true_iff in Hprint.
    destruct Hprint as [Hp _].
    pose proof (printable_not_extended char_is_signed c) as Hne.
    rewrite Hp in Hne. simpl in Hne. rewrite Hne. reflexivity.
Qed.

Lemma IsDigit_implies_other_predicates_witness :
  StrUtil.IsDigit (lit "2024") = true
  /\ StrUtil.IsNumeric (lit "2024") = true
  /\ StrUtil.IsAlphaNum (lit "2024") = true
  /\ StrUtil.IsPrintable (lit "2024") = true
  /\ StrUtil.IsExtendedAscii true (lit "2024") = false.
Proof.
  split; [reflexivity|].
  apply (IsDigit_implies_other_predicates true (lit "2024")).
  reflexivity.
Defined.

(** X16: an alphanumeric string is printable, is a good file name even
    with wildcards disallowed, is left unchanged by every mode of
    [GetGoodFileName], and is left unchanged by [GetXmlSafe]. *)
Theorem IsAlphaNum_strings_need_no_sanitising
    (str : strT) (mode : StrUtil.ConvertWildcards) :
  (size str < npos)%Z ->
  StrUtil.IsAlphaNum str = true ->
  StrUtil.IsPrintable str = true
  /\ StrUtil.IsGoodFileName str StrUtil.AllowWildcards_No = true
  /\ StrUtil.GetGoodFileName str mode = str
  /\ StrUtil.GetXmlSafe str = Ok str.
Proof.
  intros Hfit. unfold StrUtil.IsAlphaNum, StrUtil.IsPrintable, ranges.all_of.
  destruct str as [|c str]; [discriminate|]. cbn [empty negb andb].
  intros Halnum.
  assert (Hgood : StrUtil.IsGoodFileName (c :: str) StrUtil.AllowWildcards_No
                  = true).
  { unfold StrUtil.IsGoodFileName, ranges.all_of.
    revert Halnum. apply forallb_impl. intros x Hx.
    apply (alnum_char_classes x Hx). }
  assert (Hsame : flat_map XmlEscapeChar (c :: str) = c :: str).
  { clear Hfit Hgood. induction (c :: str) as [|x l IH]; [reflexivity|].
    simpl in Halnum |- *. apply andb_true_iff in Halnum.
    destruct Halnum as [Hx Hl].
    destruct (alnum_char_classes x Hx) as (_ & _ & ->).
    simpl. rewrite (IH Hl). reflexivity. }
  repeat split.
  - revert Halnum. apply forallb_impl. intros x Hx.
    apply (alnum_char_classes x Hx).
  - exact Hgood.
  - apply good_name_fixed, Hgood.
  - unfold StrUtil.GetXmlSafe. rewrite ToXmlSafe_simultaneous.
    + rewrite Hsame. reflexivity.
    + rewrite Hsame. exact Hfit.
Qed.

Lemma IsAlphaNum_strings_need_no_sanitising_witness :
  (size (lit "Report2024") < npos)%Z
  /\ StrUtil.IsAlphaNum (lit "Report2024") = true
  /\ StrUtil.IsPrintable (lit "Report2024") = true
  /\ StrUtil.IsGoodFileName (lit "Report2024") StrUtil.AllowWildcards_No = true
  /\ StrUtil.GetGoodFileName (lit "Report2024") StrUtil.ConvertWildcards_Remove
     = lit "Report2024"
  /\ StrUtil.GetXmlSafe (lit "Report2024") = Ok (lit "Report2024").
Proof.
  split; [vm_compute; reflexivity|]. split; [reflexivity|].
  apply (IsAlphaNum_strings_need_no_sanitising (lit "Report2024")
           StrUtil.ConvertWildcards_Remove).
  - vm_compute; reflexivity.
  - reflexivity.
Defined.

(** ** XML escaping: what the escaped string looks like *)

Lemma XmlUnescape_escaped_char (c : C) (rest : strT) :
  XmlUnescape (XmlEscapeChar c ++ rest) = c :: XmlUnescape rest.
Proof. each_char c; reflexivity. Qed.

Lemma XmlUnescape_escaped (s : strT) :
  XmlUnescape (flat_map XmlEscapeChar s) = s.
Proof.
  induction s as [|c s IH]; [reflexivity|].
  simpl. rewrite XmlUnescape_escaped_char, IH. reflexivity.
Qed.

Lemma escaped_char_has_no_raw_markup (c : C) :
  existsb IsRawMarkup (XmlEscapeChar c) = false.
Proof. each_char c; reflexivity. Qed.

Lemma escaped_char_length (c : C) :
  length (XmlEscapeChar c)
  = 1 + 4 * occurrences "&" [c] + 3 * occurrences "<" [c]
    + 3 * occurrences ">" [c] + 5 * occurrences dquote [c]
    + 5 * occurrences "'" [c].
Proof. each_char c; reflexivity. Qed.

Lemma escaped_char_fixed (c : C) :
  IsXmlSpecial c = false -> XmlEscapeChar c = [c].
Proof. each_char c; intros H; try discriminate H; reflexivity. Qed.

Lemma escaped_char_longer (c : C) :
  IsXmlSpecial c = true -> 2 <= length (XmlEscapeChar c).
Proof. each_char c; intros H; try discriminate H; simpl; lia. Qed.

Lemma escaped_at_least_as_long (s : strT) :
  length s <= length (flat_map XmlEscapeChar s).
Proof.
  induction s as [|c s IH]; simpl; [lia|]. rewrite length_app.
  destruct (IsXmlSpecial c) eqn:Hc.
  - pose proof (escaped_char_longer c Hc). lia.
  - rewrite (escaped_char_fixed c Hc). simpl. lia.
Qed.

Lemma escaped_same_length (s : strT) :
  length (flat_map XmlEscapeChar s) = length s ->
  existsb IsXmlSpecial s = false.
Proof.
  induction s as [|c s IH]; simpl; [reflexivity|]. rewrite length_app.
  pose proof (escaped_at_least_as_long s) as Hle.
  destruct (IsXmlSpecial c) eqn:Hc.
  - pose proof (escaped_char_longer c Hc). lia.
  - rewrite (escaped_char_fixed c Hc). simpl. intros H. apply IH. lia.
Qed.

Lemma escaped_unchanged (s : strT) :
  existsb IsXmlSpecial s = false -> flat_map XmlEscapeChar s = s.
Proof.
  induction s as [|c s IH]; simpl; [reflexivity|].
  rewrite orb_false_iff. intros [Hc Hs].
  rewrite (escaped_char_fixed c Hc), (IH Hs). reflexivity.
Qed.

(** X17: the escaped string contains no ['<'], no ['>'], no double
    quote and no single quote, whatever the input. *)
Theorem GetXmlSafe_leaves_no_raw_markup (str : strT) :
  (size (flat_map XmlEscapeChar str) < npos)%Z ->
  exists r : strT,
    StrUtil.GetXmlSafe str = Ok r /\ existsb IsRawMarkup r = false.
Proof.
  intros Hfit. unfold StrUtil.GetXmlSafe.
  rewrite (ToXmlSafe_simultaneous _ Hfit). eexists. split; [reflexivity|].
  clear Hfit. induction str as [|c str IH]; [reflexivity|].
  simpl. rewrite existsb_app, escaped_char_has_no_raw_markup, IH. reflexivity.
Qed.

Lemma GetXmlSafe_leaves_no_raw_markup_witness :
  (size (flat_map XmlEscapeChar (lit "<a href='x'>T&C</a>")) < npos)%Z
  /\ exists r : strT,
       StrUtil.GetXmlSafe (lit "<a href='x'>T&C</a>") = Ok r
       /\ existsb IsRawMarkup r = false.
Proof.
  split; [vm_compute; reflexivity|].
  apply (GetXmlSafe_leaves_no_raw_markup (lit "<a href='x'>T&C</a>")).
  vm_compute; reflexivity.
Defined.

(** X18: escaping distributes over concatenation: the escape of
    [a ++ b] is the escape of [a] followed by the escape of [b]. *)
Theorem GetXmlSafe_distributes_over_append (a b : strT) :
  (size (flat_map XmlEscapeChar (a ++ b)) < npos)%Z ->
  exists ra rb : strT,
    StrUtil.GetXmlSafe a = Ok ra
    /\ StrUtil.GetXmlSafe b = Ok rb
    /\ StrUtil.GetXmlSafe (a ++ b) = Ok (ra ++ rb).
Proof.
  intros Hfit. unfold StrUtil.GetXmlSafe.
  rewrite (ToXmlSafe_simultaneous _ Hfit).
  rewrite flat_map_app in Hfit |- *. unfold size in Hfit.
  rewrite length_app in Hfit.
  rewrite !ToXmlSafe_simultaneous by (unfold size; lia).
  eexists _, _. repeat split.
Qed.

Lemma GetXmlSafe_distributes_over_append_witness :
  (size (flat_map XmlEscapeChar (lit "a<b" ++ lit "&c")) < npos)%Z
  /\ exists ra rb : strT,
       StrUtil.GetXmlSafe (lit "a<b") = Ok ra
       /\ StrUtil.GetXmlSafe (lit "&c") = Ok rb
       /\ StrUtil.GetXmlSafe (lit "a<b" ++ lit "&c") = Ok (ra ++ rb).
Proof.
  split; [vm_compute; reflexivity|].
  apply (GetXmlSafe_distributes_over_append (lit "a<b") (lit "&c")).
  vm_compute; reflexivity.
Defined.

(** X19: [GetXmlSafe] returns its argument unchanged exactly when the
    argument holds none of the five characters of [kXmlReplace]. *)
Theorem GetXmlSafe_fixed_points (str : strT) :
  (size (flat_map XmlEscapeChar str) < npos)%Z ->
  StrUtil.GetXmlSafe str = Ok str <-> existsb IsXmlSpecial str = false.
Proof.
  intros Hfit. unfold StrUtil.GetXmlSafe.
  rewrite (ToXmlSafe_simultaneous _ Hfit). split.
  - intros [= Heq]. apply escaped_same_length. rewrite Heq. reflexivity.
  - intros Hnone. rewrite (escaped_unchanged _ Hnone). reflexivity.
Qed.

Lemma GetXmlSafe_fixed_points_witness :
  (size (flat_map XmlEscapeChar (lit "plain text; no markup")) < npos)%Z
  /\ (StrUtil.GetXmlSafe (lit "plain text; no markup")
      = Ok (lit "plain text; no markup")
      <-> existsb IsXmlSpecial (lit "plain text; no markup") = false).
Proof.
  split; [vm_compute; reflexivity|].
  apply (GetXmlSafe_fixed_points (lit "plain text; no markup")).
  vm_compute; reflexivity.
Defined.

(** X20: the escaped string is longer than the input by 4 for every
    ['&'], by 3 for every ['<'] and ['>'], and by 5 for every double or
    single quote. *)
Theorem GetXmlSafe_length (str : strT) :
  (size (flat_map XmlEscapeChar str) < npos)%Z ->
  exists r : strT,
    StrUtil.GetXmlSafe str = Ok r
    /\ length r
       = length str + 4 * occurrences "&" str + 3 * occurrences "<" str
         + 3 * occurrences ">" str + 5 * occurrences dquote str
         + 5 * occurrences "'" str.
Proof.
  intros Hfit. unfold StrUtil.GetXmlSafe.
  rewrite (ToXmlSafe_simultaneous _ Hfit). eexists. split; [reflexivity|].
  clear Hfit. induction str as [|c str IH]; [reflexivity|].
  change (c :: str) with ([c] ++ str).
  rewrite flat_map_app, !length_app, !occurrences_app, IH.
  simpl flat_map. rewrite app_nil_r, escaped_char_length. simpl length. lia.
Qed.

Lemma GetXmlSafe_length_witness :
  (size (flat_map XmlEscapeChar (lit "<a href='x'>T&C</a>")) < npos)%Z
  /\ exists r : strT,
       StrUtil.GetXmlSafe (lit "<a href='x'>T&C</a>") = Ok r
       /\ length r
          = length (lit "<a href='x'>T&C</a>")
            + 4 * occurrences "&" (lit "<a href='x'>T&C</a>")
            + 3 * occurrences "<" (lit "<a href='x'>T&C</a>")
            + 3 * occurrences ">" (lit "<a href='x'>T&C</a>")
            + 5 * occurrences dquote (lit "<a href='x'>T&C</a>")
            + 5 * occurrences "'" (lit "<a href='x'>T&C</a>").
Proof.
  split; [vm_compute; reflexivity|].
  apply (GetXmlSafe_length (lit "<a href='x'>T&C</a>")).
  vm_compute; reflexivity.
Defined.

(** X21: escaping loses nothing: two strings have the same escape only
    if they are the same string. *)
Theorem GetXmlSafe_injective (s1 s2 : strT) :
  (size (flat_map XmlEscapeChar s1) < npos)%Z ->
  (size (flat_map XmlEscapeChar s2) < npos)%Z ->
  StrUtil.GetXmlSafe s1 = StrUtil.GetXmlSafe s2 ->
  s1 = s2.
Proof.
  intros Hfit1 Hfit2. unfold StrUtil.GetXmlSafe.
  rewrite (ToXmlSafe_simultaneous _ Hfit1), (ToXmlSafe_simultaneous _ Hfit2).
  intros [= Heq].
  rewrite <- (XmlUnescape_escaped s1), <- (XmlUnescape_escaped s2), Heq.
  reflexivity.
Qed.

Lemma GetXmlSafe_injective_witness :
  (size (flat_map XmlEscapeChar (lit "a&b")) < npos)%Z
  /\ (size (flat_map XmlEscapeChar (lit "a" ++ lit "&b")) < npos)%Z
  /\ StrUtil.GetXmlSafe (lit "a&b") = StrUtil.GetXmlSafe (lit "a" ++ lit "&b")
  /\ lit "a&b" = lit "a" ++ lit "&b".
Proof.
  split; [vm_compute; reflexivity|].
  split; [vm_compute; reflexivity|].
  split; [reflexivity|].
  apply (GetXmlSafe_injective (lit "a&b") (lit "a" ++ lit "&b")).
  - vm_compute; reflexivity.
  - vm_compute; reflexivity.
  - reflexivity.
Defined.

(** ** The three shapes of a duration string *)

Lemma two_digits_length (n : Z) :
  (0 <= n < 100)%Z -> length (chrono.two_digits n) = 2.
Proof.
  intros Hn.
  assert (Hall : forallb
                   (fun k => Nat.eqb (length (chrono.two_digits (Z.of_nat k))) 2)
                   (seq 0 100) = true) by (vm_compute; reflexivity).
  rewrite List.forallb_forall in Hall.
  specialize (Hall (Z.to_nat n)).
  rewrite Z2Nat.id in Hall by lia.
  apply Nat.eqb_eq, Hall, in_seq. lia.
Qed.

(** X22: when the whole days reach [minDays], the string is the day
    count followed by the hours, minutes and seconds that remain after
    the whole days; the hour field is below 24, each of the three
    fields has exactly two digits, and the string is 13 characters
    longer than the day count. *)
Theorem GetDurationStr_with_days (totalSeconds minDays : Z) :
  (0 <= totalSeconds < 2 ^ 64)%Z ->
  (minDays <= totalSeconds / 86400)%Z ->
  let days := (totalSeconds / 86400)%Z in
  let left := (totalSeconds mod 86400)%Z in
  exists r : strT,
    StrUtil.GetDurationStr totalSeconds minDays = Ok r
    /\ r = chrono.decimal days ++ lit "d:"
           ++ chrono.two_digits (left / 3600) ++ lit "h:"
           ++ chrono.two_digits (left mod 3600 / 60) ++ lit "m:"
           ++ chrono.two_digits (left mod 60) ++ lit "s"
    /\ (left / 3600 < 24)%Z
    /\ length r = length (chrono.decimal days) + 13.
Proof.
  intros Hrange Hdays days left.
  pose proof (Z.mod_pos_bound totalSeconds 86400 ltac:(lia)) as Hm.
  fold left in Hm.
  assert (Hh : (0 <= left / 3600 < 24)%Z).
  { split; [apply Z.div_pos; lia|].
    apply Z.div_lt_upper_bound; lia. }
  assert (Heq : StrUtil.GetDurationStr totalSeconds minDays
                = Ok (chrono.decimal days ++ lit "d:"
                      ++ chrono.two_digits (left / 3600) ++ lit "h:"
                      ++ chrono.two_digits (left mod 3600 / 60) ++ lit "m:"
                      ++ chrono.two_digits (left mod 60) ++ lit "s")).
  { unfold StrUtil.GetDurationStr.
    change (StrUtil.uint64_t (60 * 60)) with 3600%Z.
    change (StrUtil.uint64_t (3600 * 24)) with 86400%Z.
    rewrite Z.div_div by lia. change (3600 * 24)%Z with 86400%Z.
    fold days.
    destruct (Z.leb_spec minDays days) as [_|]; [|lia].
    assert (Hleft : StrUtil.uint64_t
                      (totalSeconds - StrUtil.uint64_t (days * 86400)) = left).
    { unfold StrUtil.uint64_t, days, left.
      pose proof (Z.div_mod totalSeconds 86400 ltac:(lia)) as Hdm.
      pose proof (Z.mod_pos_bound totalSeconds 86400 ltac:(lia)) as Hm'.
      pose proof (Z.div_pos totalSeconds 86400 ltac:(lia) ltac:(lia)) as Hd.
      rewrite (Z.mod_small (totalSeconds / 86400 * 86400)) by lia.
      rewrite Z.mod_small by lia. lia. }
    rewrite Hleft.
    rewrite seconds_small by lia. rewrite vformat_HhMmSs by lia.
    cbn [mbind outcome_bind].
    rewrite (Z.mod_small (left / 3600) 24) by lia.
    rewrite <- app_assoc. reflexivity. }
  assert (Hmin : (0 <= left mod 3600 / 60 < 60)%Z).
  { pose proof (Z.mod_pos_bound left 3600 ltac:(lia)).
    split; [apply Z.div_pos; lia|]. apply Z.div_lt_upper_bound; lia. }
  pose proof (Z.mod_pos_bound left 60 ltac:(lia)) as Hs.
  eexists. split; [exact Heq|]. split; [reflexivity|]. split; [lia|].
  rewrite !length_app.
  rewrite (two_digits_length (left / 3600)) by lia.
  rewrite (two_digits_length (left mod 3600 / 60)) by lia.
  rewrite (two_digits_length (left mod 60)) by lia.
  change (length (lit "d:")) with 2. change (length (lit "h:")) with 2.
  change (length (lit "m:")) with 2. change (length (lit "s")) with 1.
  lia.
Qed.

Lemma GetDurationStr_with_days_witness :
  (0 <= 259261 < 2 ^ 64)%Z
  /\ (3 <= 259261 / 86400)%Z
  /\ StrUtil.GetDurationStr 259261 3 = Ok (lit "3d:00h:01m:01s").
Proof.
  split; [lia|]. split; [vm_compute; discriminate|].
  destruct (GetDurationStr_with_days 259261 3) as (r & Heq & -> & _ & _).
  - lia.
  - vm_compute; discriminate.
  - rewrite Heq. vm_compute. reflexivity.
Defined.

(** X23: with at least one whole hour, less than one whole day and
    [minDays] positive, the string has the three fields
    ["HHh:MMm:SSs"] of the duration, without a day field, and is
    exactly 11 characters long. *)
Theorem GetDurationStr_hours_below_one_day (totalSeconds minDays : Z) :
  (3600 <= totalSeconds < 86400)%Z ->
  (0 < minDays)%Z ->
  exists r : strT,
    StrUtil.GetDurationStr totalSeconds minDays = Ok r
    /\ r = chrono.two_digits (totalSeconds / 3600) ++ lit "h:"
           ++ chrono.two_digits (totalSeconds mod 3600 / 60) ++ lit "m:"
           ++ chrono.two_digits (totalSeconds mod 60) ++ lit "s"
    /\ (1 <= totalSeconds / 3600 < 24)%Z
    /\ length r = 11.
Proof.
  intros Hrange Hdays.
  assert (Hh : (1 <= totalSeconds / 3600 < 24)%Z).
  { split; [apply Z.div_le_lower_bound; lia
           | apply Z.div_lt_upper_bound; lia]. }
  assert (Hmin : (0 <= totalSeconds mod 3600 / 60 < 60)%Z).
  { pose proof (Z.mod_pos_bound totalSeconds 3600 ltac:(lia)).
    split; [apply Z.div_pos; lia|]. apply Z.div_lt_upper_bound; lia. }
  pose proof (Z.mod_pos_bound totalSeconds 60 ltac:(lia)) as Hs.
  eexists. split.
  - rewrite GetDurationStr_below_minDays.
    + rewrite (Z.mod_small (totalSeconds / 3600) 24) by lia. reflexivity.
    + lia.
    + rewrite Z.div_small by lia. exact Hdays.
  - split; [reflexivity|]. split; [exact Hh|].
    rewrite !length_app.
    rewrite (two_digits_length (totalSeconds / 3600)) by lia.
    rewrite (two_digits_length (totalSeconds mod 3600 / 60)) by lia.
    rewrite (two_digits_length (totalSeconds mod 60)) by lia.
    reflexivity.
Qed.

Lemma GetDurationStr_hours_below_one_day_witness :
  (3600 <= 3661 < 86400)%Z /\ (0 < 3)%Z
  /\ StrUtil.GetDurationStr 3661 3 = Ok (lit "01h:01m:01s").
Proof.
  split; [lia|]. split; [lia|].
  destruct (GetDurationStr_hours_below_one_day 3661 3) as (r & Heq & -> & _ & _).
  - lia.
  - lia.
  - rewrite Heq. vm_compute. reflexivity.
Defined.

(** X24: below one hour (and with [minDays] positive) the string has
    only the minute and second fields and is exactly 7 characters
    long. *)
Theorem GetDurationStr_below_one_hour (totalSeconds minDays : Z) :
  (0 <= totalSeconds < 3600)%Z ->
  (0 < minDays)%Z ->
  exists r : strT,
    StrUtil.GetDurationStr totalSeconds minDays = Ok r
    /\ r = chrono.two_digits (totalSeconds / 60) ++ lit "m:"
           ++ chrono.two_digits (totalSeconds mod 60) ++ lit "s"
    /\ length r = 7.
Proof.
  intros Hrange Hdays.
  assert (Heq : StrUtil.GetDurationStr totalSeconds minDays
                = Ok (chrono.two_digits (totalSeconds / 60) ++ lit "m:"
                      ++ chrono.two_digits (totalSeconds mod 60) ++ lit "s")).
  { unfold StrUtil.GetDurationStr.
    change (StrUtil.uint64_t (60 * 60)) with 3600%Z.
    change (StrUtil.uint64_t (3600 * 24)) with 86400%Z.
    rewrite (Z.div_small totalSeconds 3600) by lia.
    change (0 / 24)%Z with 0%Z.
    destruct (Z.leb_spec minDays 0) as [|_]; [lia|].
    change (0 =? 0)%Z with true. cbv iota.
    rewrite seconds_small by lia. rewrite vformat_MmSs by lia.
    rewrite (Z.mod_small totalSeconds 3600) by lia. reflexivity. }
  eexists. split; [exact Heq|]. split; [reflexivity|].
  assert (Hm : (0 <= totalSeconds / 60 < 60)%Z).
  { split; [apply Z.div_pos; lia | apply Z.div_lt_upper_bound; lia]. }
  pose proof (Z.mod_pos_bound totalSeconds 60 ltac:(lia)) as Hs.
  rewrite !length_app.
  rewrite (two_digits_length (totalSeconds / 60)) by lia.
  rewrite (two_digits_length (totalSeconds mod 60)) by lia.
  reflexivity.
Qed.

Lemma GetDurationStr_below_one_hour_witness :
  (0 <= 61 < 3600)%Z /\ (0 < 3)%Z
  /\ StrUtil.GetDurationStr 61 3 = Ok (lit "01m:01s").
Proof.
  split; [lia|]. split; [lia|].
  destruct (GetDurationStr_below_one_hour 61 3) as (r & Heq & -> & _).
  - lia.
  - lia.
  - rewrite Heq. vm_compute. reflexivity.
Defined.

(** ** Conversions between the code-unit widths *)

Lemma char_of_wchar_of_char (char_is_signed : bool)
    (w : StringUtil.wchar_width) (c : C) :
  StringUtil.char_of_wchar (StringUtil.wchar_of_char char_is_signed w c) = c.
Proof. destruct char_is_signed, w; each_char c; reflexivity. Qed.

Lemma wchar_of_char_extends (char_is_signed : bool)
    (w : StringUtil.wchar_width) (c : C) :
  StringUtil.wchar_of_char char_is_signed w c
  = if char_is_signed && (128 <=? N_of_ascii c)%N
    then (N_of_ascii c + (2 ^ Z.to_N (StringUtil.wchar_bits w) - 256))%N
    else N_of_ascii c.
Proof. destruct char_is_signed, w; each_char c; reflexivity. Qed.

Lemma wchar_of_char_of_wchar (char_is_signed : bool)
    (w : StringUtil.wchar_width) (u : N) :
  (u < 128)%N ->
  StringUtil.wchar_of_char char_is_signed w (StringUtil.char_of_wchar u) = u.
Proof.
  intros Hu. unfold StringUtil.char_of_wchar.
  rewrite N.mod_small by lia.
  rewrite wchar_of_char_extends, N_ascii_embedding by lia.
  destruct (N.leb_spec 128 u) as [|_]; [lia|].
  rewrite andb_false_r. reflexivity.
Qed.

(** X25: narrowing undoes widening: [GetUtf8( GetUtf16( str ) )] is
    [str] for every narrow string, on every platform variant, and both
    conversions keep the number of code units. [GetUtf16] zero-extends
    every byte below 128; a byte of 128 or more is zero-extended when
    plain [char] is unsigned and sign-extended when it is signed. *)
Theorem GetUtf8_after_GetUtf16 (char_is_signed : bool)
    (w : StringUtil.wchar_width) (str : strT) (wstr : list N) :
  StringUtil.GetUtf8 (StringUtil.GetUtf16 char_is_signed w str) = str
  /\ length (StringUtil.GetUtf16 char_is_signed w str) = length str
  /\ length (StringUtil.GetUtf8 wstr) = length wstr
  /\ StringUtil.GetUtf16 char_is_signed w str
     = map (fun c =>
              if char_is_signed && (128 <=? N_of_ascii c)%N
              then (N_of_ascii c + (2 ^ Z.to_N (StringUtil.wchar_bits w) - 256))%N
              else N_of_ascii c) str.
Proof.
  unfold StringUtil.GetUtf8, StringUtil.GetUtf16, StringUtil.TransformTo.
  rewrite map_map, !length_map. repeat split.
  - rewrite <- (map_id str) at 2. apply map_ext.
    apply char_of_wchar_of_char.
  - apply map_ext. intros c. apply wchar_of_char_extends.
Qed.

(** X26: widening undoes narrowing for wide strings whose code units
    are all below 128. *)
Theorem GetUtf16_after_GetUtf8_on_ascii (char_is_signed : bool)
    (w : StringUtil.wchar_width) (wstr : list N) :
  forallb (fun u => (u <? 128)%N) wstr = true ->
  StringUtil.GetUtf16 char_is_signed w (StringUtil.GetUtf8 wstr) = wstr.
Proof.
  intros Hascii.
  unfold StringUtil.GetUtf8, StringUtil.GetUtf16, StringUtil.TransformTo.
  rewrite map_map. induction wstr as [|u wstr IH]; [reflexivity|].
  simpl in Hascii |- *. apply andb_true_iff in Hascii.
  destruct Hascii as [Hu Hrest]. apply N.ltb_lt in Hu.
  rewrite wchar_of_char_of_wchar by exact Hu. rewrite IH by exact Hrest.
  reflexivity.
Qed.

Lemma GetUtf16_after_GetUtf8_on_ascii_witness :
  forallb (fun u => (u <? 128)%N) [72; 105; 33]%N = true
  /\ StringUtil.GetUtf16 true StringUtil.wchar16
       (StringUtil.GetUtf8 [72; 105; 33]%N) = [72; 105; 33]%N.
Proof.
  split; [reflexivity|].
  apply (GetUtf16_after_GetUtf8_on_ascii true StringUtil.wchar16
           [72; 105; 33]%N).
  reflexivity.
Defined.

(** ** The string list *)

Lemma GetCharCount_from (l : list strT) :
  forall n : nat,
    fold_left (fun count rhs => count + length rhs) l n
    = n + list_sum (map length l).
Proof.
  induction l as [|s l IH]; intros n; simpl; [lia|]. rewrite IH. lia.
Qed.

Lemma GetCharCount_sum (l : StrList.StrListT) :
  StrList.GetCharCount l = list_sum (map length (StrList.list_ l)).
Proof. unfold StrList.GetCharCount. apply GetCharCount_from. Qed.

Lemma list_sum_zero_iff (l : list strT) :
  list_sum (map length l) = 0 <-> forallb empty l = true.
Proof.
  induction l as [|s l IH]; simpl; [split; reflexivity|].
  rewrite andb_true_iff, <- IH. destruct s; simpl; split.
  - intros H. split; [reflexivity | exact H].
  - intros [_ H]. exact H.
  - discriminate.
  - intros [H _]. discriminate.
Qed.

(** X27: [GetCharCount] is the sum of the element sizes: appending a
    string adds its size, inserting a range at a valid position adds
    the sizes of the range, clearing gives zero, and the count is zero
    exactly when every element is the empty string. *)
Theorem GetCharCount_is_additive (l : StrList.StrListT) (str : strT)
    (where_ : nat) (range : list strT) :
  StrList.GetCharCount (StrList.push_back l str)
  = StrList.GetCharCount l + length str
  /\ (where_ <= StrList.size l ->
      StrList.GetCharCount (StrList.insert l where_ range)
      = StrList.GetCharCount l + list_sum (map length range))
  /\ StrList.GetCharCount (StrList.clear l) = 0
  /\ (StrList.GetCharCount l = 0
      <-> forallb empty (StrList.list_ l) = true).
Proof.
  rewrite !GetCharCount_sum. unfold StrList.push_back, StrList.insert.
  cbn [StrList.list_]. repeat split.
  - rewrite map_app, list_sum_app. simpl. lia.
  - intros _. rewrite <- (take_drop where_ (StrList.list_ l)) at 3.
    rewrite !map_app, !list_sum_app. lia.
  - apply list_sum_zero_iff.
  - apply list_sum_zero_iff.
Qed.

Lemma GetCharCount_is_additive_witness :
  1 <= StrList.size (built_from [lit "ab"; lit ""])
  /\ StrList.GetCharCount
       (StrList.insert (built_from [lit "ab"; lit ""]) 1 [lit "cde"])
     = StrList.GetCharCount (built_from [lit "ab"; lit ""])
       + list_sum (map length [lit "cde"]).
Proof.
  split; [vm_compute; lia|].
  destruct (GetCharCount_is_additive (built_from [lit "ab"; lit ""]) []
              1 [lit "cde"]) as (_ & Hinsert & _).
  apply Hinsert. vm_compute; lia.
Defined.

(** X28: [find] answers membership: it is [true] exactly for the
    strings held by the list, so a string is found after it is
    appended or inserted, appending or inserting never hides a string,
    nothing is found after [clear], and [ContainsEmptyStrings] is
    [find] of the empty string. *)
Theorem StrList_find_is_membership (l : StrList.StrListT) (str sought : strT)
    (where_ : nat) (range : list strT) :
  (StrList.find l sought = true <-> In sought (StrList.list_ l))
  /\ StrList.find (StrList.push_back l str) sought
     = StrList.find l sought || bool_decide (str = sought)
  /\ (where_ <= StrList.size l ->
      StrList.find (StrList.insert l where_ range) sought
      = StrList.find l sought
        || existsb (fun s => bool_decide (s = sought)) range)
  /\ StrList.find (StrList.clear l) sought = false
  /\ StrList.ContainsEmptyStrings l = StrList.find l [].
Proof.
  unfold StrList.find, StrList.push_back, StrList.insert,
    StrList.ContainsEmptyStrings, ranges.any_of.
  cbn [StrList.list_]. repeat split.
  - rewrite existsb_exists. intros (s & Hin & Hs).
    apply bool_decide_eq_true in Hs. subst s. exact Hin.
  - intros Hin. apply existsb_exists. exists sought.
    split; [exact Hin | apply bool_decide_eq_true; reflexivity].
  - rewrite existsb_app. simpl. rewrite orb_false_r. reflexivity.
  - intros _. rewrite <- (take_drop where_ (StrList.list_ l)) at 3.
    rewrite !existsb_app.
    destruct (existsb _ (take where_ (StrList.list_ l))),
      (existsb _ range), (existsb _ (drop where_ (StrList.list_ l)));
      reflexivity.
  - induction (StrList.list_ l) as [|s rest IH]; [reflexivity|].
    simpl. rewrite IH. f_equal. destruct s; reflexivity.
Qed.

Lemma StrList_find_is_membership_witness :
  1 <= StrList.size (built_from [lit "ab"; lit ""])
  /\ StrList.find
       (StrList.insert (built_from [lit "ab"; lit ""]) 1 [lit "cde"])
       (lit "cde")
     = StrList.find (built_from [lit "ab"; lit ""]) (lit "cde")
       || existsb (fun s => bool_decide (s = lit "cde")) [lit "cde"].
Proof.
  split; [vm_compute; lia|].
  destruct (StrList_find_is_membership (built_from [lit "ab"; lit ""]) []
              (lit "cde") 1 [lit "cde"]) as (_ & _ & Hinsert & _).
  apply Hinsert. vm_compute; lia.
Defined.

(** X29: appending grows the list by one and inserting a range at a
    valid position by the size of the range; inserting at the end is
    appending the strings of the range one after the other; a list is
    [empty] exactly when its size is zero. *)
Theorem StrList_sizes_and_insert_at_end (l : StrList.StrListT) (str : strT)
    (where_ : nat) (range : list strT) :
  StrList.size (StrList.push_back l str) = S (StrList.size l)
  /\ (where_ <= StrList.size l ->
      StrList.size (StrList.insert l where_ range)
      = StrList.size l + length range)
  /\ StrList.insert l (StrList.size l) range
     = fold_left StrList.push_back range l
  /\ StrList.empty l = Nat.eqb (StrList.size l) 0.
Proof.
  unfold StrList.size in *. repeat split.
  - unfold StrList.push_back. cbn [StrList.list_].
    rewrite length_app. simpl. lia.
  - intros Hwhere. unfold StrList.insert. cbn [StrList.list_].
    rewrite !length_app, length_take, length_drop. lia.
  - unfold StrList.insert. rewrite firstn_all, drop_all, app_nil_r.
    revert l. induction range as [|s range IH]; intros l.
    + simpl. rewrite app_nil_r. destruct l; reflexivity.
    + simpl. rewrite <- IH. unfold StrList.push_back. cbn [StrList.list_].
      rewrite <- app_assoc. reflexivity.
  - unfold StrList.empty. destruct (StrList.list_ l); reflexivity.
Qed.

Lemma StrList_sizes_and_insert_at_end_witness :
  1 <= StrList.size (built_from [lit "ab"; lit ""])
  /\ StrList.size
       (StrList.insert (built_from [lit "ab"; lit ""]) 1 [lit "cde"])
     = StrList.size (built_from [lit "ab"; lit ""]) + length [lit "cde"].
Proof.
  split; [vm_compute; lia|].
  destruct (StrList_sizes_and_insert_at_end (built_from [lit "ab"; lit ""]) []
              1 [lit "cde"]) as (_ & Hinsert & _).
  apply Hinsert. vm_compute; lia.
Defined.

(** ** The path separator *)

(** X30: [ForwardSlashToBackslash] changes the forward slash and
    nothing else, never returns a forward slash, is idempotent, and
    agrees with [ToGoodFileChar] on the forward slash. *)
Theorem ForwardSlashToBackslash_only_touches_slash (c : C) :
  Ascii.eqb (CharUtil.ForwardSlashToBackslash c) c = negb (Ascii.eqb c "/")
  /\ Ascii.eqb (CharUtil.ForwardSlashToBackslash c) "/" = false
  /\ CharUtil.ForwardSlashToBackslash (CharUtil.ForwardSlashToBackslash c)
     = CharUtil.ForwardSlashToBackslash c
  /\ (if Ascii.eqb c "/"
      then CharUtil.ForwardSlashToBackslash c = CharUtil.ToGoodFileChar c
      else CharUtil.ForwardSlashToBackslash c = c).
Proof. each_char c; repeat split; reflexivity. Qed.
